(** * Pacman ghost decision engine and meta-rule controller

    A shallow embedding of [ghost_ai.py] (class [GhostAI]) and
    [meta_rules_controller.py] (class [MetaRulesController]).

    Modelling conventions.
    - Python [int] is [Z].
    - Python [float] comes in two forms.  Where the code multiplies and adds
      floats (the score of a move, the converge radius in pixels) a float is
      an IEEE double behind the interface [PyFloat]: its operations are the
      machine's, each with its own rounding, and only the order of doubles is
      assumed.  Where a float is one quotient of two integers tested against
      a configured constant (a distance in tiles) it is the exact rational
      [pyfloat].  Division by a zero float raises [ZeroDivisionError], as in
      Python.
    - Raised exceptions are values of [exn], carried by [result].
    - [dict] is stdpp's [gmap]; [dict.get] and [dict[k]] are lookups, the
      latter raising [KeyError] on a missing key.
    - A pygame sprite is a record with an object identity ([sid]), its
      [rect], and the optional attributes [change_x]/[change_y] (read with
      [getattr(.., 0)]).
    - [pygame.sprite.spritecollide] and [random.Random] are external; they
      are the interfaces [Collision] and [PyRandom].
    - [print] appends a line to an output log kept in the controller state. *)

From Stdlib Require Import ZArith QArith Lqa Lia List String Ascii Bool.
From stdpp Require Import gmap strings list fin_maps.

Local Open Scope Z_scope.

(** ** Python values shared by both files *)

Inductive exn := ZeroDivisionError | KeyError | IndexError.

Inductive result (A : Type) :=
| Ok (a : A)
| Raise (e : exn).
Arguments Ok {A} a.
Arguments Raise {A} e.

(** A Python float: a rational or [float("inf")]. *)
Inductive pyfloat :=
| Finite (q : Q)
| Infinity.

Definition Qlt_bool (x y : Q) : bool := negb (Qle_bool y x).

(** [a < b] on floats. *)
Definition flt (a b : pyfloat) : bool :=
  match a, b with
  | Finite x, Finite y => Qlt_bool x y
  | Finite _, Infinity => true
  | Infinity, _ => false
  end.

(** [a >= b] on floats. *)
Definition fge (a b : pyfloat) : bool :=
  match a, b with
  | Finite x, Finite y => Qle_bool y x
  | Infinity, _ => true
  | Finite _, Infinity => false
  end.

(** Python's [min(a, b)]: [b] when [b < a], else [a]. *)
Definition fmin (a b : pyfloat) : pyfloat := if flt b a then b else a.


Definition Vec := (Z * Z)%type.
Definition Point := (Z * Z)%type.

Definition vec_eqb (a b : Vec) : bool := (a.1 =? b.1) && (a.2 =? b.2).

(** ** The part of pygame the code touches *)

Module Rect.
Record t := mk { left : Z; top : Z; width : Z; height : Z }.

(** [rect.centerx], [rect.centery]: the corner plus half the size, halved
    with integer division. *)
Definition centerx (r : t) : Z := left r + width r / 2.
Definition centery (r : t) : Z := top r + height r / 2.
Definition center (r : t) : Point := (centerx r, centery r).
Definition topleft (r : t) : Point := (left r, top r).

Definition set_left (r : t) (v : Z) : t :=
  {| left := v; top := top r; width := width r; height := height r |}.
Definition set_top (r : t) (v : Z) : t :=
  {| left := left r; top := v; width := width r; height := height r |}.
Definition set_topleft (r : t) (p : Point) : t :=
  {| left := p.1; top := p.2; width := width r; height := height r |}.
End Rect.

Record Sprite := mkSprite {
  sid : nat;
  rect : Rect.t;
  change_x : option Z;
  change_y : option Z
}.

Definition set_rect (s : Sprite) (r : Rect.t) : Sprite :=
  {| sid := sid s; rect := r; change_x := change_x s; change_y := change_y s |}.

Definition set_change (s : Sprite) (v : Vec) : Sprite :=
  {| sid := sid s; rect := rect s; change_x := Some v.1; change_y := Some v.2 |}.

(** [getattr(obj, name, 0)] *)
Definition getattr0 (a : option Z) : Z := default 0 a.

(** [a is b] on sprites. *)
Definition is_ (a b : Sprite) : bool := Nat.eqb (sid a) (sid b).

(** [s.lower()] on ASCII strings. *)
Definition lower_ascii (c : ascii) : ascii :=
  let n := nat_of_ascii c in
  if ((65 <=? n) && (n <=? 90))%nat then ascii_of_nat (n + 32) else c.

Fixpoint lower (s : string) : string :=
  match s with
  | EmptyString => EmptyString
  | String c s' => String (lower_ascii c) (lower s')
  end.

(** [pygame.sprite.Group] and [pygame.sprite.spritecollide(sprite, group,
    False)]: the sprites of the group that the sprite's rect touches. *)
Class Collision := {
  Group : Type;
  spritecollide : Sprite -> Group -> list Sprite
}.

(** [random.Random]: [Random seed] builds a generator, [random] draws the
    next float of [[0, 1)] and advances the generator. *)
Class PyRandom := {
  Rng : Type;
  Random : Z -> Rng;
  random : Rng -> Q * Rng;
  random_range : forall r, (0 <= (random r).1 < 1)%Q
}.

(** Python's [float] as the machine computes with it: an IEEE double.
    [f_lit q] is the double nearest to the rational [q] (a float literal, or
    a value that already is a double); [f_of_int n] is [float(n)], the
    conversion Python applies to an [int] that meets a float (integers
    beyond the range of a double, about 1.8e308, are not considered);
    [f_inf] is [float("inf")]; [f_add], [f_mul], [f_div] are [+], [*], [/] on
    doubles, each rounded as the machine rounds it ([f_div] is only ever
    applied to a divisor of at least 1); [f_lt a b] is [a < b]; [int_gt n x]
    is [n > x] for an [int] against a float, which Python decides exactly;
    [f_isnan] is [math.isnan].  Nothing is assumed of the rounding.  Of the
    order it is assumed that [<] is irreflexive and transitive, that a double
    which is not a NaN is above the smaller or below the larger of any two
    doubles in order, and that nothing is above [float("inf")], which is not
    a NaN. *)
Class PyFloat := {
  Float : Type;
  f_lit : Q -> Float;
  f_of_int : Z -> Float;
  f_inf : Float;
  f_add : Float -> Float -> Float;
  f_mul : Float -> Float -> Float;
  f_div : Float -> Float -> Float;
  f_lt : Float -> Float -> bool;
  int_gt : Z -> Float -> bool;
  f_isnan : Float -> bool;
  f_lt_irrefl : forall a, f_lt a a = false;
  f_lt_trans : forall a b c,
    f_lt a b = true -> f_lt b c = true -> f_lt a c = true;
  f_lt_between : forall a b c,
    f_isnan c = false -> f_lt a b = true ->
    f_lt a c = true \/ f_lt c b = true;
  f_inf_top : forall a, f_lt f_inf a = false;
  f_inf_number : f_isnan f_inf = false
}.

(** ** ghost_ai.py *)

Module GhostAI.

Record Weights := mkWeights {
  w_dist : Q;
  w_reverse : Q;
  w_separation : Q;
  w_jitter : Q
}.

(** [Weights()] with the dataclass defaults. *)
Definition Weights_default : Weights :=
  mkWeights 1.0 3.0 0.4 0.1.

(** [_manhattan] *)
Definition _manhattan (a b : Point) : Z :=
  Z.abs (a.1 - b.1) + Z.abs (a.2 - b.2).

(** [_normalize_dir] *)
Definition _normalize_dir (dx dy : Z) : Vec :=
  let ndx := if dx =? 0 then 0 else (if dx >? 0 then 1 else -1) in
  let ndy := if dy =? 0 then 0 else (if dy >? 0 then 1 else -1) in
  (ndx, ndy).

Section Engine.

Context `{Collision} `{PyRandom} `{PyFloat}.

(** The engine object.  [scatter_targets] and [weights] are assigned once in
    [__init__] from [board_size] and constants and never reassigned, so they
    are functions of the object below. *)
Record t := mk {
  step : Z;
  tile : Z;
  board_size : Z;
  rng : Rng
}.

Definition set_rng (self : t) (r : Rng) : t :=
  {| step := step self; tile := tile self; board_size := board_size self;
     rng := r |}.

(** [GhostAI.__init__]; the defaults are [step=15, tile=30, board_size=606,
    seed=1]. *)
Definition __init__ (step tile board_size seed : Z) : t :=
  {| step := step; tile := tile; board_size := board_size;
     rng := Random seed |}.

(** [self.scatter_targets] *)
Definition scatter_targets (self : t) : gmap string Point :=
  <["blinky" := (board_size self - 30, 30)]>
  (<["pinky" := (30, 30)]>
  (<["inky" := (board_size self - 30, board_size self - 30)]>
  (<["clyde" := (30, board_size self - 30)]> ∅))).

(** [self.weights] *)
Definition weights (self : t) : gmap string Weights :=
  <["blinky" := mkWeights 1.0 2.5 0.2 0.0]>
  (<["pinky" := mkWeights 1.0 2.0 0.2 0.0]>
  (<["inky" := mkWeights 1.0 2.0 0.7 0.35]>
  (<["clyde" := mkWeights 1.0 2.0 0.3 0.05]> ∅))).

(** [_can_move]: the sprite's rect is shifted in place, the collision
    queries run on the shifted sprite, and the rect is put back.  Returns the
    sprite as left by the call together with the answer. *)
Definition _can_move (sprite : Sprite) (dx dy : Z) (walls : Group)
    (gate : option Group) : Sprite * bool :=
  let old := Rect.topleft (rect sprite) in
  let s1 := set_rect sprite
              (Rect.set_left (rect sprite) (Rect.left (rect sprite) + dx)) in
  let s2 := set_rect s1 (Rect.set_top (rect s1) (Rect.top (rect s1) + dy)) in
  let hit_wall := spritecollide s2 walls in
  let hit_gate :=
    match gate with
    | Some g => negb (bool_decide (spritecollide s2 g = []))
    | None => false
    end in
  let s3 := set_rect s2 (Rect.set_topleft (rect s2) old) in
  (s3, bool_decide (hit_wall = []) && negb hit_gate).

(** The four candidates of [_possible_moves], in the order of the source:
    left, right, up, down. *)
Definition candidates (self : t) : list Vec :=
  [ (- step self, 0); (step self, 0); (0, - step self); (0, step self) ].

(** [_possible_moves]; [_can_move] hands the ghost back as it received it
    (lemma [_can_move_restores]), so each query starts from [ghost]. *)
Definition _possible_moves (self : t) (ghost : Sprite) (walls : Group)
    (gate : option Group) : list Vec :=
  fold_left
    (fun ok '(dx, dy) =>
       if (_can_move ghost dx dy walls gate).2 then ok ++ [(dx, dy)] else ok)
    (candidates self) [].

(** [_compute_target] *)
Definition _compute_target (self : t) (name : string) (ghost pacman : Sprite)
    (blinky : option Sprite) : result Point :=
  let pac := Rect.center (rect pacman) in
  let pac_dir :=
    _normalize_dir (getattr0 (change_x pacman)) (getattr0 (change_y pacman)) in
  if String.eqb name "blinky" then Ok pac
  else if String.eqb name "pinky" then
    let k := 4 in
    Ok (pac.1 + pac_dir.1 * tile self * k, pac.2 + pac_dir.2 * tile self * k)
  else if String.eqb name "inky" then
    let k := 2 in
    let ahead :=
      (pac.1 + pac_dir.1 * tile self * k, pac.2 + pac_dir.2 * tile self * k) in
    match blinky with
    | None => Ok ahead
    | Some b =>
        let bpos := Rect.center (rect b) in
        Ok (2 * ahead.1 - bpos.1, 2 * ahead.2 - bpos.2)
    end
  else if String.eqb name "clyde" then
    if tile self =? 0 then Raise ZeroDivisionError
    else
      let dist_tiles :=
        (inject_Z (_manhattan (Rect.center (rect ghost)) pac)
         / inject_Z (tile self))%Q in
      if Qlt_bool 6.0 dist_tiles then Ok pac
      else
        match scatter_targets self !! "clyde" with
        | Some corner => Ok corner
        | None => Raise KeyError
        end
  else Ok pac.

(** The [reverse] value of [_choose_best_move]: [None] for an idle ghost. *)
Definition reverse_of (self : t) (ghost : Sprite) : option Vec :=
  let cur_dir :=
    _normalize_dir (getattr0 (change_x ghost)) (getattr0 (change_y ghost)) in
  if vec_eqb cur_dir (0, 0) then None
  else Some (- cur_dir.1 * step self, - cur_dir.2 * step self).

(** [rev_pen] for one candidate. *)
Definition rev_pen (reverse : option Vec) (moves : list Vec) (m : Vec) : Q :=
  if match reverse with
     | Some r => vec_eqb m r && (1 <? Z.of_nat (length moves))
     | None => false
     end
  then 1000.0 else 0.0.

(** [sep_pen] for one candidate position: [0.0], then
    [sep_pen += 1.0 / (dd + 1.0)] for each other ghost in turn.  [dd] is not
    negative, so the divisor is at least 1. *)
Definition sep_pen (next_pos : Point) (other_ghosts : list Sprite) : Float :=
  fold_left
    (fun acc g =>
       let dd := _manhattan next_pos (Rect.center (rect g)) in
       f_add acc (f_div (f_lit 1.0) (f_add (f_of_int dd) (f_lit 1.0))))
    other_ghosts (f_lit 0.0).

(** [score] of one candidate, given its jitter draw: the four products are
    added from left to right, and [a * b * c] is [(a * b) * c]. *)
Definition score (ghost : Sprite) (moves : list Vec) (target : Point)
    (w : Weights) (other_ghosts : list Sprite) (reverse : option Vec)
    (m : Vec) (jitter : Q) : Float :=
  let next_pos :=
    (Rect.centerx (rect ghost) + m.1, Rect.centery (rect ghost) + m.2) in
  let d := _manhattan next_pos target in
  f_add
    (f_add
       (f_add (f_mul (f_lit (w_dist w)) (f_of_int d))
              (f_mul (f_lit (w_reverse w)) (f_lit (rev_pen reverse moves m))))
       (f_mul (f_mul (f_lit (w_separation w)) (sep_pen next_pos other_ghosts))
              (f_lit 1000.0)))
    (f_mul (f_mul (f_lit (w_jitter w)) (f_lit jitter)) (f_lit 50.0)).

(** State of the scoring loop: [best], [best_score] and the generator. *)
Definition loop_state := (option Vec * Float * Rng)%type.

(** One iteration of the [for dx, dy in moves] loop. *)
Definition loop_body (ghost : Sprite) (moves : list Vec) (target : Point)
    (w : Weights) (other_ghosts : list Sprite) (reverse : option Vec)
    (st : loop_state) (m : Vec) : loop_state :=
  let '(best, best_score, r) := st in
  let '(jitter, r') := random r in
  let sc := score ghost moves target w other_ghosts reverse m jitter in
  if f_lt sc best_score then (Some m, sc, r')
  else (best, best_score, r').

(** [_choose_best_move]; returns the generator as advanced by the loop. *)
Definition _choose_best_move (self : t) (ghost : Sprite) (moves : list Vec)
    (target : Point) (w : Weights) (other_ghosts : list Sprite)
    : result Vec * Rng :=
  let reverse := reverse_of self ghost in
  let '(best, _, r) :=
    fold_left (loop_body ghost moves target w other_ghosts reverse)
      moves (None, f_inf, rng self) in
  match best with
  | Some b => (Ok b, r)
  | None =>
      match moves with
      | m0 :: _ => (Ok m0, r)
      | [] => (Raise IndexError, r)
      end
  end.

(** [set_ghost_direction]: returns the engine (its generator advanced) and
    the ghost with [change_x], [change_y] written; an exception leaves both
    as they were. *)
Definition set_ghost_direction (self : t) (ghost_name : string)
    (ghost pacman : Sprite) (walls : Group) (gate : option Group)
    (other_ghosts : option (list Sprite)) (blinky : option Sprite)
    : result (t * Sprite) :=
  let name := lower ghost_name in
  let other_list :=
    List.filter (fun g => negb (is_ g ghost)) (default [] other_ghosts) in
  let possible := _possible_moves self ghost walls gate in
  match possible with
  | [] => Ok (self, set_change ghost (0, 0))
  | _ :: _ =>
      match _compute_target self name ghost pacman blinky with
      | Raise e => Raise e
      | Ok target =>
          let w := default Weights_default (weights self !! name) in
          match _choose_best_move self ghost possible target w other_list with
          | (Raise e, _) => Raise e
          | (Ok best_move, r) => Ok (set_rng self r, set_change ghost best_move)
          end
      end
  end.

(** The move-validity check of one candidate, as [_possible_moves] asks it. *)
Definition is_free (ghost : Sprite) (walls : Group) (gate : option Group)
    (m : Vec) : bool :=
  (_can_move ghost m.1 m.2 walls gate).2.

(** The displacement a sprite carries in [change_x], [change_y]. *)
Definition change (s : Sprite) : Vec :=
  (getattr0 (change_x s), getattr0 (change_y s)).

(** The first [n] draws of a generator, and the generator after them. *)
Fixpoint draws (r : Rng) (n : nat) : list Q :=
  match n with
  | O => []
  | S n' => (random r).1 :: draws (random r).2 n'
  end.

Fixpoint advance (r : Rng) (n : nat) : Rng :=
  match n with
  | O => r
  | S n' => advance (random r).2 n'
  end.

(** The score as the specification words it, computed in doubles: the
    separation sum runs over the other ghosts in order, starting from zero;
    the distance term, the reversal term, the separation term scaled by 1000
    and the jitter term scaled by 50 are added in this order. *)
Definition spec_separation (next_pos : Point) (other_ghosts : list Sprite)
    : Float :=
  fold_left
    (fun sum g =>
       f_add sum
         (f_div (f_lit 1.0)
            (f_add (f_of_int (_manhattan next_pos (Rect.center (rect g))))
               (f_lit 1.0))))
    other_ghosts (f_lit 0.0).

Definition spec_score (ghost : Sprite) (target : Point) (w : Weights)
    (other_ghosts : list Sprite) (reversal_penalty : Q) (m : Vec)
    (jitter : Q) : Float :=
  let next_pos :=
    (Rect.centerx (rect ghost) + m.1, Rect.centery (rect ghost) + m.2) in
  let distance_term :=
    f_mul (f_lit (w_dist w)) (f_of_int (_manhattan next_pos target)) in
  let reversal_term := f_mul (f_lit (w_reverse w)) (f_lit reversal_penalty) in
  let separation_term :=
    f_mul (f_mul (f_lit (w_separation w))
             (spec_separation next_pos other_ghosts))
      (f_lit 1000.0) in
  let jitter_term :=
    f_mul (f_mul (f_lit (w_jitter w)) (f_lit jitter)) (f_lit 50.0) in
  f_add (f_add (f_add distance_term reversal_term) separation_term)
    jitter_term.

(** [k] is the first index of a minimum of [scores], whose value is [s]: no
    score is below [s], and [s] is below every score before it. *)
Definition first_min (scores : list Float) (k : nat) (s : Float) : Prop :=
  scores !! k = Some s
  /\ (forall j s', scores !! j = Some s' -> f_lt s' s = false)
  /\ (forall j s', (j < k)%nat -> scores !! j = Some s' -> f_lt s s' = true).

(** What the scoring loop holds after the moves [pre], whose scores were
    [seen]: no move yet, [best_score] still [inf] and no score below it; or
    the move at the first minimum of [seen], with its score. *)
Definition loop_inv (pre : list Vec) (seen : list Float) (best : option Vec)
    (best_score : Float) : Prop :=
  length pre = length seen
  /\ match best with
     | None =>
         best_score = f_inf
         /\ forall j s', seen !! j = Some s' -> f_lt s' f_inf = false
     | Some m => exists k, pre !! k = Some m /\ first_min seen k best_score
     end.

(** The sprite as the collision queries of [_can_move] see it: its rect moved
    by [(dx, dy)]. *)
Definition displaced (sprite : Sprite) (dx dy : Z) : Sprite :=
  set_rect sprite
    (Rect.mk (Rect.left (rect sprite) + dx) (Rect.top (rect sprite) + dy)
       (Rect.width (rect sprite)) (Rect.height (rect sprite))).

End Engine.

End GhostAI.

(** ** meta_rules_controller.py *)

Module MetaRules.

Record RoleSwapConfig := mkRoleSwapConfig {
  safe_distance_tiles : Q;
  escape_ticks_threshold : Z;
  swap_cooldown_ticks : Z;
  rotation_step : Z
}.

(** [RoleSwapConfig()] *)
Definition RoleSwapConfig_default : RoleSwapConfig :=
  mkRoleSwapConfig 6.0 60 30 1.

Record ConvergeConfig := mkConvergeConfig {
  radius_tiles : Q;
  required_sectors : Z;
  hold_ticks : Z;
  cooldown_ticks : Z
}.

(** [ConvergeConfig()] *)
Definition ConvergeConfig_default : ConvergeConfig :=
  mkConvergeConfig 6.0 3 30 30.

(** [self.ghost_ids]: assigned in [__init__] and never reassigned. *)
Definition ghost_ids : list string := ["blinky"; "pinky"; "inky"; "clyde"].

(** The controller object; [stdout] collects what [print] wrote. *)
Record t := mk {
  tile : Z;
  cfg : RoleSwapConfig;
  converge_cfg : ConvergeConfig;
  role_map : gmap string string;
  _escape_ticks : Z;
  _role_swap_cooldown : Z;
  _converge_ticks : Z;
  _converge_cooldown : Z;
  stdout : list string
}.

Definition set_role_map (self : t) (m : gmap string string) : t :=
  mk (tile self) (cfg self) (converge_cfg self) m (_escape_ticks self)
     (_role_swap_cooldown self) (_converge_ticks self)
     (_converge_cooldown self) (stdout self).

Definition set_escape_ticks (self : t) (v : Z) : t :=
  mk (tile self) (cfg self) (converge_cfg self) (role_map self) v
     (_role_swap_cooldown self) (_converge_ticks self)
     (_converge_cooldown self) (stdout self).

Definition set_role_swap_cooldown (self : t) (v : Z) : t :=
  mk (tile self) (cfg self) (converge_cfg self) (role_map self)
     (_escape_ticks self) v (_converge_ticks self)
     (_converge_cooldown self) (stdout self).

Definition set_converge_ticks (self : t) (v : Z) : t :=
  mk (tile self) (cfg self) (converge_cfg self) (role_map self)
     (_escape_ticks self) (_role_swap_cooldown self) v
     (_converge_cooldown self) (stdout self).

Definition set_converge_cooldown (self : t) (v : Z) : t :=
  mk (tile self) (cfg self) (converge_cfg self) (role_map self)
     (_escape_ticks self) (_role_swap_cooldown self) (_converge_ticks self)
     v (stdout self).

(** [print(line)] *)
Definition print (self : t) (line : string) : t :=
  mk (tile self) (cfg self) (converge_cfg self) (role_map self)
     (_escape_ticks self) (_role_swap_cooldown self) (_converge_ticks self)
     (_converge_cooldown self) (stdout self ++ [line]).

(** A dict built from key/value pairs in order; a later pair overwrites an
    earlier one with the same key. *)
Definition dict_of (kvs : list (string * string)) : gmap string string :=
  fold_left (fun m kv => <[kv.1 := kv.2]> m) kvs ∅.

(** [MetaRulesController.__init__]; [None] selects the default config. *)
Definition __init__ (tile : Z) (config : option RoleSwapConfig)
    (converge_config : option ConvergeConfig) : t :=
  {| tile := tile;
     cfg := default RoleSwapConfig_default config;
     converge_cfg := default ConvergeConfig_default converge_config;
     role_map := dict_of (map (fun gid => (gid, gid)) ghost_ids);
     _escape_ticks := 0;
     _role_swap_cooldown := 0;
     _converge_ticks := 0;
     _converge_cooldown := 0;
     stdout := [] |}.

(** [{gid: "converge" for gid in self.ghost_ids}] *)
Definition all_converge : gmap string string :=
  dict_of (map (fun gid => (gid, "converge"%string)) ghost_ids).

Section Controller.

Context `{PyFloat}.

(** [radius_px = self.converge_cfg.radius_tiles * float(self.tile)]: a
    product of two doubles, rounded as the machine rounds it. *)
Definition radius_px (self : t) : Float :=
  f_mul (f_lit (radius_tiles (converge_cfg self))) (f_of_int (tile self)).

(** Body of the sector loop of [_update_converge_rule] for one identity. *)
Definition sector_step (pac : Point) (ghosts : gmap string Sprite)
    (radius_px : Float) (sectors : gset string) (gid : string) : gset string :=
  match ghosts !! gid with
  | None => sectors
  | Some g =>
      let '(gx, gy) := Rect.center (rect g) in
      let dx := gx - pac.1 in
      let dy := gy - pac.2 in
      if int_gt (Z.abs dx + Z.abs dy) radius_px then sectors
      else if (dx >=? 0) && (dy <? 0) then {["NE"%string]} ∪ sectors
      else if (dx <? 0) && (dy <? 0) then {["NW"%string]} ∪ sectors
      else if (dx <? 0) && (dy >=? 0) then {["SW"%string]} ∪ sectors
      else {["SE"%string]} ∪ sectors
  end.

(** The [sectors] set at the end of the loop. *)
Definition occupied_sectors (self : t) (pac : Point)
    (ghosts : gmap string Sprite) : gset string :=
  fold_left (sector_step pac ghosts (radius_px self)) ghost_ids ∅.

(** [_update_converge_rule] *)
Definition _update_converge_rule (self : t) (pac : Point)
    (ghosts : gmap string Sprite) : t * option (gmap string string) :=
  let self :=
    if _converge_cooldown self >? 0
    then set_converge_cooldown self (_converge_cooldown self - 1)
    else self in
  if _converge_ticks self >? 0 then
    let self := print self "Converge is active" in
    let self := set_converge_ticks self (_converge_ticks self - 1) in
    let self :=
      if _converge_ticks self =? 0
      then set_converge_cooldown self (cooldown_ticks (converge_cfg self))
      else self in
    let self := set_escape_ticks self 0 in
    (self, Some all_converge)
  else if negb (_converge_cooldown self =? 0) then (self, None)
  else
    let sectors := occupied_sectors self pac ghosts in
    if Z.of_nat (size sectors) >=? required_sectors (converge_cfg self) then
      let self := set_converge_ticks self (hold_ticks (converge_cfg self)) in
      let self := set_escape_ticks self 0 in
      (self, Some all_converge)
    else (self, None).

(** [_min_dist_to_pacman_tiles] *)
Definition _min_dist_to_pacman_tiles (self : t) (pac : Point)
    (ghosts : gmap string Sprite) : result pyfloat :=
  fold_left
    (fun acc gid =>
       match acc with
       | Raise e => Raise e
       | Ok min_dist =>
           match ghosts !! gid with
           | None => Ok min_dist
           | Some g =>
               if tile self =? 0 then Raise ZeroDivisionError
               else
                 let d :=
                   (inject_Z (Z.abs (Rect.centerx (rect g) - pac.1)
                              + Z.abs (Rect.centery (rect g) - pac.2))
                    / inject_Z (tile self))%Q in
                 Ok (fmin min_dist (Finite d))
           end
       end)
    ghost_ids (Ok Infinity).

(** [l[-k:]] and [l[:-k]] for [k > 0]. *)
Definition slice_from_neg {A} (l : list A) (k : nat) : list A :=
  skipn (length l - k) l.
Definition slice_to_neg {A} (l : list A) (k : nat) : list A :=
  firstn (length l - k) l.

(** [[self.role_map[gid] for gid in self.ghost_ids]]; [None] stands for the
    [KeyError] of a missing identity. *)
Fixpoint roles_of (m : gmap string string) (ids : list string)
    : option (list string) :=
  match ids with
  | [] => Some []
  | gid :: ids' =>
      match m !! gid with
      | None => None
      | Some role =>
          match roles_of m ids' with
          | None => None
          | Some roles => Some (role :: roles)
          end
      end
  end.

(** [_swap_roles] *)
Definition _swap_roles (self : t) : result t :=
  let step := rotation_step (cfg self) mod Z.of_nat (length ghost_ids) in
  if step =? 0 then Ok self
  else
    match roles_of (role_map self) ghost_ids with
    | None => Raise KeyError
    | Some current_roles =>
        let rotated :=
          slice_from_neg current_roles (Z.to_nat step)
          ++ slice_to_neg current_roles (Z.to_nat step) in
        Ok (set_role_map self (dict_of (combine ghost_ids rotated)))
    end.

(** [_update_role_swap_rule]; on an exception the object is returned as the
    exception found it. *)
Definition _update_role_swap_rule (self : t) (pac : Point)
    (ghosts : gmap string Sprite) : t * result unit :=
  match _min_dist_to_pacman_tiles self pac ghosts with
  | Raise e => (self, Raise e)
  | Ok min_dist =>
      let self :=
        if fge min_dist (Finite (safe_distance_tiles (cfg self)))
        then set_escape_ticks self (_escape_ticks self + 1)
        else set_escape_ticks self 0 in
      let self :=
        if _role_swap_cooldown self >? 0
        then set_role_swap_cooldown self (_role_swap_cooldown self - 1)
        else self in
      if (_escape_ticks self >=? escape_ticks_threshold (cfg self))
         && (_role_swap_cooldown self =? 0)
      then
        let self := print self "Roles have been swapped" in
        match _swap_roles self with
        | Raise e => (self, Raise e)
        | Ok self =>
            let self := set_escape_ticks self 0 in
            let self :=
              set_role_swap_cooldown self (swap_cooldown_ticks (cfg self)) in
            (self, Ok tt)
        end
      else (self, Ok tt)
  end.

(** [update]: the object after the call and the returned mapping. *)
Definition update (self : t) (pacman : Sprite) (ghosts : gmap string Sprite)
    : t * result (gmap string string) :=
  let pac := Rect.center (rect pacman) in
  let '(self, converge_map) := _update_converge_rule self pac ghosts in
  match converge_map with
  | Some m => (self, Ok m)
  | None =>
      match _update_role_swap_rule self pac ghosts with
      | (self, Raise e) => (self, Raise e)
      | (self, Ok _) => (self, Ok (role_map self))
      end
  end.

(** The controller after a sequence of [update] calls, with what each call
    returned or raised. *)
Fixpoint run (self : t) (ticks : list (Sprite * gmap string Sprite))
    : t * list (result (gmap string string)) :=
  match ticks with
  | [] => (self, [])
  | (pacman, ghosts) :: rest =>
      let '(self', res) := update self pacman ghosts in
      let '(self'', ress) := run self' rest in
      (self'', res :: ress)
  end.


(** *** Vocabulary of the statements *)

(** The four counters are non-negative. *)
Definition counters_nonneg (self : t) : Prop :=
  0 <= _escape_ticks self /\ 0 <= _role_swap_cooldown self
  /\ 0 <= _converge_ticks self /\ 0 <= _converge_cooldown self.

(** The configured lengths the counters are reset to are non-negative. *)
Definition lengths_nonneg (self : t) : Prop :=
  0 <= swap_cooldown_ticks (cfg self)
  /\ 0 <= hold_ticks (converge_cfg self)
  /\ 0 <= cooldown_ticks (converge_cfg self).

(** Every identity has a role. *)
Definition role_map_total (m : gmap string string) : Prop :=
  Forall (fun gid => is_Some (m !! gid)) ghost_ids.


(** The converge cooldown as the rule leaves it after its opening
    decrement. *)
Definition cooldown_after_decrement (self : t) : Z :=
  if _converge_cooldown self >? 0 then _converge_cooldown self - 1
  else _converge_cooldown self.

(** The sector of a ghost at offset [(dx, dy)] from the player. *)
Definition sector_of (dx dy : Z) : string :=
  if (dx >=? 0) && (dy <? 0) then "NE"
  else if (dx <? 0) && (dy <? 0) then "NW"
  else if (dx <? 0) && (dy >=? 0) then "SW"
  else "SE".

(** A ghost lies within the configured Manhattan radius of the player: its
    distance in pixels is not greater than the radius in pixels as the
    controller computes it. *)
Definition within_radius (self : t) (pac : Point) (g : Sprite) : Prop :=
  int_gt (Z.abs ((Rect.center (rect g)).1 - pac.1)
          + Z.abs ((Rect.center (rect g)).2 - pac.2))
    (radius_px self) = false.

(** Cyclic rotation as the specification words it: position [i] receives the
    role previously at position [i - s], positions taken modulo the number of
    identities. *)
Definition rotate_roles (s : Z) (roles : list string) : list string :=
  map (fun i =>
         nth (Z.to_nat ((Z.of_nat i - s) mod Z.of_nat (length roles)))
           roles ""%string)
      (seq 0 (length roles)).



(** [role_to_ghost].  [self.role_map] is only ever assigned in [__init__] and
    [_swap_roles], which both build it over [ghost_ids] in order, so
    [role_map.items()] enumerates the four identities in that order; a later
    identity with the same role overwrites an earlier one. *)
Definition role_to_ghost (self : t) (ghosts : gmap string Sprite)
    : gmap string Sprite :=
  fold_left
    (fun inv gid =>
       match role_map self !! gid with
       | None => inv
       | Some role =>
           match ghosts !! gid with
           | Some g => <[role := g]> inv
           | None => inv
           end
       end)
    ghost_ids ∅.

(** [_swap_roles] called [n] times in a row. *)
Fixpoint swaps (n : nat) (self : t) : result t :=
  match n with
  | O => Ok self
  | S n' =>
      match _swap_roles self with
      | Ok self' => swaps n' self'
      | Raise e => Raise e
      end
  end.

(** The distance [d] that [_min_dist_to_pacman_tiles] computes for one
    ghost. *)
Definition dist_tiles (self : t) (pac : Point) (g : Sprite) : Q :=
  (inject_Z (Z.abs (Rect.centerx (rect g) - pac.1)
             + Z.abs (Rect.centery (rect g) - pac.2))
   / inject_Z (tile self))%Q.

(** The identities present in a position map. *)
Definition tracked (ghosts : gmap string Sprite) : list string :=
  List.filter (fun gid => bool_decide (is_Some (ghosts !! gid))) ghost_ids.

(** The mapping has the four identities as its keys and assigns them four
    different roles. *)
Definition role_map_bijective (m : gmap string string) : Prop :=
  (forall gid, is_Some (m !! gid) <-> In gid ghost_ids)
  /\ exists roles, roles_of m ghost_ids = Some roles /\ List.NoDup roles.

End Controller.

End MetaRules.

(** ** A concrete world, used to run the model *)

Module Sample.

(** [pygame.Rect.colliderect] for rects of positive size. *)
Definition colliderect (a b : Rect.t) : bool :=
  (Rect.left a <? Rect.left b + Rect.width b)
  && (Rect.left b <? Rect.left a + Rect.width a)
  && (Rect.top a <? Rect.top b + Rect.height b)
  && (Rect.top b <? Rect.top a + Rect.height a).

Definition rect_collision : Collision :=
  {| Group := list Sprite;
     spritecollide := fun s g =>
       List.filter (fun w => colliderect (rect s) (rect w)) g |}.

(** A small linear congruential generator standing for [random.Random]. *)
Definition lcg_next (r : Z) : Z := (1103515245 * r + 12345) mod 2147483648.

Definition lcg_draw (r : Z) : Q * Z :=
  (inject_Z (lcg_next r) / 2147483648, lcg_next r)%Q.

Lemma lcg_draw_range (r : Z) : (0 <= (lcg_draw r).1 < 1)%Q.
Proof.
  unfold lcg_draw, lcg_next; cbn [fst].
  pose proof (Z.mod_pos_bound (1103515245 * r + 12345) 2147483648 eq_refl)
    as [Hlo Hhi].
  set (n := (1103515245 * r + 12345) mod 2147483648) in *.
  split.
  - apply Qle_shift_div_l; [reflexivity|].
    rewrite Qmult_0_l. unfold Qle; simpl. lia.
  - apply Qlt_shift_div_r; [reflexivity|].
    rewrite Qmult_1_l. unfold Qlt; simpl. lia.
Qed.

Definition lcg_random : PyRandom :=
  {| Rng := Z;
     Random := fun seed => seed mod 2147483648;
     random := lcg_draw;
     random_range := lcg_draw_range |}.

(** Doubles for the sample world: a rational is rounded to a 53-bit
    significand, to nearest, ties to even.  The exponent is not bounded, so
    no operation of the sample overflows, underflows or yields a NaN.
    [scaled n d e] is the fraction [(n / d) / 2 ^ e]. *)
Definition scaled (n d e : Z) : Z * Z :=
  if e >=? 0 then (n, d * 2 ^ e) else (n * 2 ^ (- e), d).

Definition round53 (q : Q) : Q :=
  let n := Z.abs (Qnum q) in
  let d := Z.pos (Qden q) in
  if n =? 0 then 0%Q
  else
    let e0 := Z.log2 n - Z.log2 d - 52 in
    let m0 := (scaled n d e0).1 / (scaled n d e0).2 in
    let e :=
      if m0 <? 2 ^ 52 then e0 - 1
      else if m0 >=? 2 ^ 53 then e0 + 1 else e0 in
    let a := (scaled n d e).1 in
    let b := (scaled n d e).2 in
    let m := a / b in
    let r := a mod b in
    let m' :=
      if 2 * r >? b then m + 1
      else if (2 * r =? b) && Z.odd m then m + 1 else m in
    let v := Z.sgn (Qnum q) * m' in
    Qred (if e >=? 0 then inject_Z (v * 2 ^ e)
          else (v # Z.to_pos (2 ^ (- e)))).

Definition double_add (a b : pyfloat) : pyfloat :=
  match a, b with
  | Finite x, Finite y => Finite (round53 (x + y))
  | _, _ => Infinity
  end.

Definition double_mul (a b : pyfloat) : pyfloat :=
  match a, b with
  | Finite x, Finite y => Finite (round53 (x * y))
  | _, _ => Infinity
  end.

Definition double_div (a b : pyfloat) : pyfloat :=
  match a, b with
  | Finite x, Finite y => Finite (round53 (x / y))
  | Finite _, Infinity => Finite 0
  | Infinity, _ => Infinity
  end.

Lemma flt_irrefl (a : pyfloat) : flt a a = false.
Proof.
  destruct a as [x|]; [|reflexivity]. unfold flt, Qlt_bool.
  apply negb_false_iff, Qle_bool_iff, Qle_refl.
Qed.

Lemma flt_Finite (x y : Q) : flt (Finite x) (Finite y) = true <-> (x < y)%Q.
Proof.
  unfold flt, Qlt_bool. rewrite negb_true_iff, <- not_true_iff_false.
  rewrite Qle_bool_iff. split; [apply Qnot_le_lt|apply Qlt_not_le].
Qed.

Lemma flt_trans (a b c : pyfloat) :
  flt a b = true -> flt b c = true -> flt a c = true.
Proof.
  destruct a as [x|], b as [y|], c as [z|]; try discriminate;
    try reflexivity.
  rewrite !flt_Finite. apply Qlt_trans.
Qed.

Lemma flt_between (a b c : pyfloat) :
  flt a b = true -> flt a c = true \/ flt c b = true.
Proof.
  destruct a as [x|], b as [y|], c as [z|]; try discriminate;
    try (now left); try (now right).
  rewrite !flt_Finite. intros Hxy.
  destruct (Qlt_le_dec x z) as [Hxz|Hzx]; [now left|right].
  eapply Qle_lt_trans; eassumption.
Qed.

(** The rounding at work: [0.57 * 100.0] falls short of 57 by one unit in
    the last place, [0.3 * 10.0] is 3. *)
Lemma double_mul_rounds :
  double_mul (Finite (round53 0.57)) (Finite (round53 100.0))
  = Finite (8022036836253695 # 140737488355328)
  /\ flt (double_mul (Finite (round53 0.57)) (Finite (round53 100.0)))
       (Finite 57) = true
  /\ double_mul (Finite (round53 0.3)) (Finite (round53 10.0)) = Finite 3.
Proof. repeat split; vm_compute; reflexivity. Qed.

Definition double_arith : PyFloat :=
  {| Float := pyfloat;
     f_lit := fun q => Finite (round53 q);
     f_of_int := fun n => Finite (round53 (inject_Z n));
     f_inf := Infinity;
     f_add := double_add;
     f_mul := double_mul;
     f_div := double_div;
     f_lt := flt;
     int_gt := fun n x => flt x (Finite (inject_Z n));
     f_isnan := fun _ => false;
     f_lt_irrefl := flt_irrefl;
     f_lt_trans := flt_trans;
     f_lt_between := fun a b c _ => flt_between a b c;
     f_inf_top := fun _ => eq_refl;
     f_inf_number := eq_refl |}.

Definition sprite_at (id : nat) (x y : Z) (dx dy : Z) : Sprite :=
  mkSprite id (Rect.mk x y 30 30) (Some dx) (Some dy).

(** A wall block: sprites that never move carry no [change_x]. *)
Definition wall_at (id : nat) (x y w h : Z) : Sprite :=
  mkSprite id (Rect.mk x y w h) None None.

(** The engine with the constructor defaults. *)
Definition engine : @GhostAI.t lcg_random :=
  @GhostAI.__init__ lcg_random 15 30 606 1.

(** A ghost in a corridor open on every side, one walled in on three sides,
    and one walled in completely. *)
Definition ghost_open : Sprite := sprite_at 1 285 285 15 0.
Definition pacman : Sprite := sprite_at 0 285 435 0 0.
Definition no_walls : list Sprite := [].
Definition dead_end : list Sprite :=
  [ wall_at 10 315 285 30 30; wall_at 11 285 255 30 30;
    wall_at 12 285 315 30 30 ].
Definition cell : list Sprite :=
  wall_at 13 255 285 30 30 :: dead_end.

(** The move behind [ghost_open], and the four moves of the default step. *)
Definition back : Vec := (-15, 0).
Definition four_moves : list Vec := [(-15, 0); (15, 0); (0, -15); (0, 15)].

(** A mirror position: an idle ghost centred at (300,300) that can go left
    or right, the player straight below it, and three other ghosts centred
    at (285,180), (300,255) and (315,180). *)
Definition idle_ghost : Sprite := sprite_at 1 285 285 0 0.
Definition two_moves : list Vec := [(-15, 0); (15, 0)].
Definition mirror_ghosts : list Sprite :=
  [ sprite_at 2 270 165 0 0; sprite_at 3 285 240 0 0;
    sprite_at 4 300 165 0 0 ].

(** The controller with the default configurations and a 30-pixel tile. *)
Definition controller : MetaRules.t := MetaRules.__init__ 30 None None.

(** Three ghosts close to [pacman] (centred at (300,450)), to its north-east,
    north-west and south-west. *)
Definition surrounding : gmap string Sprite :=
  <["blinky" := sprite_at 1 315 405 0 0]>
  (<["pinky" := sprite_at 2 255 405 0 0]>
  (<["inky" := sprite_at 3 255 465 0 0]> ∅)).

(** A controller one tick before the end of its converge cooldown. *)
Definition cooling : MetaRules.t :=
  MetaRules.set_converge_cooldown controller 1.


End Sample.

(** * Properties of the decision engine *)

Module GhostAIProofs.
Import GhostAI.

Section Proofs.

Context `{Collision} `{PyRandom} `{PyFloat}.

Lemma vec_eqb_eq (a b : Vec) : vec_eqb a b = true <-> a = b.
Proof.
  destruct a as [a1 a2], b as [b1 b2]; unfold vec_eqb; cbn [fst snd].
  rewrite andb_true_iff, !Z.eqb_eq. split.
  - intros [-> ->]; reflexivity.
  - intros [= -> ->]; split; reflexivity.
Qed.

Lemma Qlt_bool_iff (x y : Q) : Qlt_bool x y = true <-> (x < y)%Q.
Proof.
  unfold Qlt_bool. rewrite negb_true_iff.
  rewrite <- not_true_iff_false, Qle_bool_iff. split.
  - apply Qnot_le_lt.
  - apply Qlt_not_le.
Qed.

Lemma Qlt_bool_false (x y : Q) : Qlt_bool x y = false <-> (y <= x)%Q.
Proof.
  unfold Qlt_bool. rewrite negb_false_iff. apply Qle_bool_iff.
Qed.

(** [_can_move] leaves the sprite exactly as it found it. *)
Lemma _can_move_restores (sprite : Sprite) (dx dy : Z) (walls : Group)
    (gate : option Group) :
  (_can_move sprite dx dy walls gate).1 = sprite.
Proof.
  destruct sprite as [i [l t w h] cx cy]. reflexivity.
Qed.

Lemma fold_append_filter {A} (p : A -> bool) (l acc : list A) :
  fold_left (fun ok x => if p x then ok ++ [x] else ok) l acc
  = acc ++ List.filter p l.
Proof.
  revert acc; induction l as [|x l IH]; intros acc; cbn.
  - now rewrite app_nil_r.
  - rewrite IH. destruct (p x); [|reflexivity].
    now rewrite <- app_assoc.
Qed.

(** [_possible_moves] keeps the free candidates, in candidate order. *)
Lemma _possible_moves_filter (self : t) (ghost : Sprite) (walls : Group)
    (gate : option Group) :
  _possible_moves self ghost walls gate
  = List.filter (is_free ghost walls gate) (candidates self).
Proof.
  unfold _possible_moves.
  transitivity
    (fold_left
       (fun ok m => if is_free ghost walls gate m then ok ++ [m] else ok)
       (candidates self) []).
  - assert (G : forall l acc,
               fold_left
                 (fun ok '(dx, dy) =>
                    if (_can_move ghost dx dy walls gate).2
                    then ok ++ [(dx, dy)] else ok) l acc
               = fold_left
                   (fun ok m =>
                      if is_free ghost walls gate m then ok ++ [m] else ok)
                   l acc).
    { induction l as [|[dx dy] l IH]; intros acc; cbn;
        [reflexivity|apply IH]. }
    apply G.
  - now rewrite fold_append_filter.
Qed.

Lemma _possible_moves_In (self : t) (ghost : Sprite) (walls : Group)
    (gate : option Group) (m : Vec) :
  In m (_possible_moves self ghost walls gate)
  <-> In m (candidates self) /\ is_free ghost walls gate m = true.
Proof. rewrite _possible_moves_filter. apply filter_In. Qed.

Lemma loop_body_eq (ghost : Sprite) (moves : list Vec) (target : Point)
    (w : Weights) (others : list Sprite) (reverse : option Vec)
    (best : option Vec) (bs : Float) (r : Rng) (m : Vec) :
  loop_body ghost moves target w others reverse (best, bs, r) m
  = if f_lt (score ghost moves target w others reverse m (random r).1) bs
    then (Some m, score ghost moves target w others reverse m (random r).1,
          (random r).2)
    else (best, bs, (random r).2).
Proof. unfold loop_body. destruct (random r) as [j r']. reflexivity. Qed.

(** Whatever the loop holds in [best] is the initial value or one of the
    moves it went through. *)
Lemma loop_best_In (ghost : Sprite) (moves : list Vec) (target : Point)
    (w : Weights) (others : list Sprite) (reverse : option Vec)
    (l : list Vec) (best : option Vec) (bs : Float) (r : Rng) (b : Vec) :
  (fold_left (loop_body ghost moves target w others reverse) l
     (best, bs, r)).1.1 = Some b ->
  best = Some b \/ In b l.
Proof.
  revert best bs r; induction l as [|m l IH]; intros best bs r;
    cbn [fold_left].
  - cbn. intros ->; now left.
  - rewrite loop_body_eq.
    destruct (f_lt _ bs); intros Hb; apply IH in Hb.
    + destruct Hb as [[= ->]|Hb]; right; [now left|now right].
    + destruct Hb as [Hb|Hb]; [now left|right; now right].
Qed.

(** [_choose_best_move] answers a member of a non-empty move list. *)
Lemma _choose_best_move_In (self : t) (ghost : Sprite) (moves : list Vec)
    (target : Point) (w : Weights) (others : list Sprite) :
  moves <> [] ->
  exists b, (_choose_best_move self ghost moves target w others).1 = Ok b
            /\ In b moves.
Proof.
  intros Hne. unfold _choose_best_move.
  destruct (fold_left _ moves _) as [[best bs] r] eqn:E.
  destruct best as [b|].
  - exists b; split; [reflexivity|].
    pose proof (loop_best_In ghost moves target w others
                  (reverse_of self ghost) moves None f_inf (rng self) b) as L.
    rewrite E in L. destruct (L eq_refl) as [?|?]; [discriminate|assumption].
  - destruct moves as [|m0 ms]; [contradiction|].
    exists m0; split; [reflexivity|now left].
Qed.

Lemma scatter_targets_clyde (self : t) :
  scatter_targets self !! "clyde" = Some (30, board_size self - 30).
Proof. reflexivity. Qed.

(** [_compute_target] raises only on the herder branch with a zero tile. *)
Lemma _compute_target_returns (self : t) (name : string)
    (ghost pacman : Sprite) (blinky : option Sprite) :
  tile self <> 0 ->
  exists p, _compute_target self name ghost pacman blinky = Ok p.
Proof.
  intros Ht. unfold _compute_target.
  rewrite scatter_targets_clyde.
  destruct (tile self =? 0) eqn:E; [apply Z.eqb_eq in E; contradiction|].
  repeat (match goal with |- context [if ?b then _ else _] =>
            destruct b end; eauto).
  destruct blinky; eauto.
Qed.

(** With no free candidate the call writes the zero displacement and leaves
    the engine alone. *)
Lemma set_ghost_direction_idle (self : t) (ghost_name : string)
    (ghost pacman : Sprite) (walls : Group) (gate : option Group)
    (other_ghosts : option (list Sprite)) (blinky : option Sprite) :
  (forall m, In m (candidates self) -> is_free ghost walls gate m = false) ->
  set_ghost_direction self ghost_name ghost pacman walls gate other_ghosts
    blinky = Ok (self, set_change ghost (0, 0)).
Proof.
  intros Hnone. unfold set_ghost_direction.
  destruct (_possible_moves self ghost walls gate) as [|m ms] eqn:E;
    [reflexivity|].
  assert (Hm : In m (_possible_moves self ghost walls gate))
    by (rewrite E; now left).
  apply _possible_moves_In in Hm as [Hc Hf].
  rewrite (Hnone m Hc) in Hf. discriminate.
Qed.

(** With a free candidate (and a non-zero tile) the call writes one of the
    moves [_possible_moves] found. *)
Lemma set_ghost_direction_moves (self : t) (ghost_name : string)
    (ghost pacman : Sprite) (walls : Group) (gate : option Group)
    (other_ghosts : option (list Sprite)) (blinky : option Sprite) :
  tile self <> 0 ->
  _possible_moves self ghost walls gate <> [] ->
  exists r b,
    set_ghost_direction self ghost_name ghost pacman walls gate other_ghosts
      blinky = Ok (set_rng self r, set_change ghost b)
    /\ In b (_possible_moves self ghost walls gate).
Proof.
  intros Ht Hne. unfold set_ghost_direction.
  destruct (_possible_moves self ghost walls gate) as [|m ms] eqn:E;
    [contradiction|].
  destruct (_compute_target_returns self (lower ghost_name) ghost pacman
              blinky Ht) as [target ->].
  set (w := default Weights_default (weights self !! lower ghost_name)).
  set (others := List.filter _ _).
  destruct (_choose_best_move_In self ghost (m :: ms) target w others)
    as (b & Hb & Hin); [discriminate|].
  destruct (_choose_best_move self ghost (m :: ms) target w others)
    as [res r]. cbn [fst] in Hb. subst res.
  exists r, b. split; [reflexivity|exact Hin].
Qed.

(** C1: a call to [set_ghost_direction] (with a non-zero tile, so that the
    herder's distance is defined) returns and writes a displacement to the
    ghost.  If at least one of the four candidates passes the move-validity
    check, the written displacement is one of the candidates that pass it.
    If none passes, the written displacement is (0,0), the engine is
    untouched, and every further call on the resulting ghost that again finds
    no free candidate gives back the same engine and the same ghost. *)
Theorem set_ghost_direction_free_or_idle (self : t) (ghost_name : string)
    (ghost pacman : Sprite) (walls : Group) (gate : option Group)
    (other_ghosts : option (list Sprite)) (blinky : option Sprite) :
  tile self <> 0 ->
  exists self' ghost',
    set_ghost_direction self ghost_name ghost pacman walls gate other_ghosts
      blinky = Ok (self', ghost')
    /\ rect ghost' = rect ghost
    /\ change_x ghost' = Some (change ghost').1
    /\ change_y ghost' = Some (change ghost').2
    /\ ((exists m, In m (candidates self)
                   /\ is_free ghost walls gate m = true) ->
        In (change ghost') (candidates self)
        /\ is_free ghost walls gate (change ghost') = true)
    /\ ((forall m, In m (candidates self) ->
                   is_free ghost walls gate m = false) ->
        change ghost' = (0, 0)
        /\ self' = self
        /\ forall name2 pacman2 walls2 gate2 others2 blinky2,
             (forall m, In m (candidates self') ->
                        is_free ghost' walls2 gate2 m = false) ->
             set_ghost_direction self' name2 ghost' pacman2 walls2 gate2
               others2 blinky2 = Ok (self', ghost')).
Proof.
  intros Ht.
  destruct (_possible_moves self ghost walls gate) as [|m ms] eqn:E.
  - assert (Hnone : forall m, In m (candidates self) ->
                              is_free ghost walls gate m = false).
    { intros m Hc. destruct (is_free ghost walls gate m) eqn:Hf; [|easy].
      assert (Hm : In m (_possible_moves self ghost walls gate))
        by (apply _possible_moves_In; easy).
      rewrite E in Hm. destruct Hm. }
    exists self, (set_change ghost (0, 0)).
    rewrite (set_ghost_direction_idle _ _ _ _ _ _ _ _ Hnone).
    do 4 (split; [reflexivity|]). split.
    + intros (m & Hc & Hf). rewrite (Hnone m Hc) in Hf. discriminate.
    + intros _. do 2 (split; [reflexivity|]).
      intros name2 pacman2 walls2 gate2 others2 blinky2 Hnone2.
      now rewrite (set_ghost_direction_idle _ _ _ _ _ _ _ _ Hnone2).
  - destruct (set_ghost_direction_moves self ghost_name ghost pacman walls
                gate other_ghosts blinky Ht) as (r & b & Hcall & Hposs);
      [rewrite E; discriminate|].
    exists (set_rng self r), (set_change ghost b).
    apply _possible_moves_In in Hposs as [Hc Hf]. rewrite Hcall.
    destruct b as [bx by_]. do 4 (split; [reflexivity|]). split.
    + intros _. split; assumption.
    + intros Hnone. rewrite (Hnone _ Hc) in Hf. discriminate.
Qed.

(** The penalty as one boolean test on the facing, the candidate and the
    number of moves. *)
Lemma rev_pen_test (self : t) (ghost : Sprite) (moves : list Vec) (m : Vec) :
  let facing := _normalize_dir (change ghost).1 (change ghost).2 in
  rev_pen (reverse_of self ghost) moves m
  = if negb (vec_eqb facing (0, 0))
       && vec_eqb m (- facing.1 * step self, - facing.2 * step self)
       && (1 <? Z.of_nat (length moves))
    then 1000.0%Q else 0.0%Q.
Proof.
  cbv zeta. unfold rev_pen, reverse_of, change. cbn [fst snd].
  destruct (vec_eqb (_normalize_dir _ _) (0, 0)); cbn [negb andb];
    reflexivity.
Qed.

Lemma candidates_nonzero (self : t) (m : Vec) :
  step self <> 0 -> In m (candidates self) -> m <> (0, 0).
Proof.
  intros Hs Hin ->. unfold candidates in Hin. cbn in Hin.
  destruct Hin as [E|[E|[E|[E|[]]]]]; injection E; lia.
Qed.

(** C4: the reversal penalty of a candidate is 1000 when the ghost has a
    (non-zero) sign-normalised facing, the candidate is that facing reversed
    and scaled by the step, and more than one move is on offer; it is 0 in
    every other case.  For an actual candidate of an engine with a non-zero
    step the facing test is implied, so the penalty is 1000 exactly when the
    candidate is the reverse and more than one move is free.  When a single
    candidate is free (in particular when it is the reverse) it carries no
    penalty and it is the displacement [set_ghost_direction] writes. *)
Theorem reversal_penalty_rule (self : t) (ghost_name : string)
    (ghost pacman : Sprite) (walls : Group) (gate : option Group)
    (other_ghosts : option (list Sprite)) (blinky : option Sprite)
    (moves : list Vec) (m : Vec) :
  let facing := _normalize_dir (change ghost).1 (change ghost).2 in
  let reversed := (- facing.1 * step self, - facing.2 * step self) in
  let pen := rev_pen (reverse_of self ghost) moves m in
  ((facing <> (0, 0) /\ m = reversed /\ (1 < length moves)%nat) ->
   (pen == 1000)%Q)
  /\ (~ (facing <> (0, 0) /\ m = reversed /\ (1 < length moves)%nat) ->
      (pen == 0)%Q)
  /\ (step self <> 0 -> In m (candidates self) ->
      ((pen == 1000)%Q <-> m = reversed /\ (1 < length moves)%nat))
  /\ (tile self <> 0 -> _possible_moves self ghost walls gate = [m] ->
      (rev_pen (reverse_of self ghost) [m] m == 0)%Q
      /\ exists self' ghost',
           set_ghost_direction self ghost_name ghost pacman walls gate
             other_ghosts blinky = Ok (self', ghost')
           /\ change ghost' = m).
Proof.
  intros facing reversed pen.
  assert (Hpen : pen = if negb (vec_eqb facing (0, 0))
                          && vec_eqb m reversed
                          && (1 <? Z.of_nat (length moves))
                       then 1000.0%Q else 0.0%Q)
    by apply rev_pen_test.
  assert (Hyes : facing <> (0, 0) /\ m = reversed /\ (1 < length moves)%nat
                 -> (pen == 1000)%Q).
  { intros (Hf & Hm & Hl). rewrite Hpen.
    apply vec_eqb_eq in Hm. rewrite Hm.
    destruct (vec_eqb facing (0, 0)) eqn:E;
      [apply vec_eqb_eq in E; contradiction|].
    assert ((1 <? Z.of_nat (length moves)) = true) as ->
      by (apply Z.ltb_lt; lia).
    reflexivity. }
  assert (Hno : ~ (facing <> (0, 0) /\ m = reversed
                   /\ (1 < length moves)%nat) -> (pen == 0)%Q).
  { intros Hn. rewrite Hpen.
    destruct (vec_eqb facing (0, 0)) eqn:E1; [reflexivity|].
    destruct (vec_eqb m reversed) eqn:E2; [|reflexivity].
    destruct (1 <? Z.of_nat (length moves)) eqn:E3; [|reflexivity].
    exfalso; apply Hn. repeat split.
    - intros E. apply vec_eqb_eq in E. congruence.
    - now apply vec_eqb_eq.
    - apply Z.ltb_lt in E3. lia. }
  split; [exact Hyes|]. split; [exact Hno|]. split.
  - intros Hs Hin. split.
    + intros H1000. rewrite Hpen in H1000.
      destruct (vec_eqb facing (0, 0)); [discriminate|].
      destruct (vec_eqb m reversed) eqn:E2; [|discriminate].
      destruct (1 <? Z.of_nat (length moves)) eqn:E3; [|discriminate].
      split; [now apply vec_eqb_eq|]. apply Z.ltb_lt in E3. lia.
    + intros [Hm Hl]. apply Hyes. repeat split; try assumption.
      intros Hz. apply (candidates_nonzero self m Hs Hin).
      rewrite Hm. unfold reversed. rewrite Hz. reflexivity.
  - intros Ht Hposs. split.
    + rewrite rev_pen_test. cbn [length Z.of_nat Z.ltb Z.compare Pos.compare].
      rewrite andb_false_r. reflexivity.
    + destruct (set_ghost_direction_moves self ghost_name ghost pacman walls
                  gate other_ghosts blinky Ht) as (r & b & Hcall & Hin2);
        [rewrite Hposs; discriminate|].
      exists (set_rng self r), (set_change ghost b). split; [exact Hcall|].
      destruct b as [bx by_].
      change (change (set_change ghost (bx, by_))) with (bx, by_).
      rewrite Hposs in Hin2. destruct Hin2 as [<-|[]]. reflexivity.
Qed.

(** *** The scoring loop picks the first minimum *)

(** A score below the one held, which nothing seen so far undercuts, is the
    first minimum once appended. *)
Lemma first_min_snoc_lt (seen : list Float) (bs sc : Float) :
  Forall (fun s => f_isnan s = false) seen ->
  (forall j s', seen !! j = Some s' -> f_lt s' bs = false) ->
  f_lt sc bs = true ->
  first_min (seen ++ [sc]) (length seen) sc.
Proof.
  intros Hnan Hmin Hsc. split; [|split].
  - rewrite lookup_app_r by lia. now rewrite Nat.sub_diag.
  - intros j s' Hj. apply lookup_snoc_Some in Hj as [[_ Hj]|[_ <-]].
    + destruct (f_lt s' sc) eqn:E; [|reflexivity].
      rewrite <- (Hmin j s' Hj). symmetry.
      eapply f_lt_trans; eassumption.
    + apply f_lt_irrefl.
  - intros j s' Hjk Hj. rewrite lookup_app_l in Hj by exact Hjk.
    pose proof (Forall_lookup_1 _ _ _ _ Hnan Hj) as Hs'.
    destruct (f_lt_between sc bs s' Hs' Hsc) as [Hl|Hr]; [exact Hl|].
    rewrite (Hmin j s' Hj) in Hr. discriminate.
Qed.

(** A score that is not below the minimum leaves the first minimum where it
    is. *)
Lemma first_min_snoc_ge (seen : list Float) (k : nat) (s sc : Float) :
  first_min seen k s -> f_lt sc s = false -> first_min (seen ++ [sc]) k s.
Proof.
  intros (Hk & Hle & Hlt) Hsc.
  pose proof (lookup_lt_Some _ _ _ Hk) as Hklen. split; [|split].
  - now rewrite lookup_app_l.
  - intros j s' Hj. apply lookup_snoc_Some in Hj as [[_ Hj]|[_ <-]].
    + eapply Hle, Hj.
    + exact Hsc.
  - intros j s' Hjk Hj. rewrite lookup_app_l in Hj by lia.
    eapply Hlt; eassumption.
Qed.

(** One iteration keeps the loop invariant. *)
Lemma loop_inv_step (pre : list Vec) (seen : list Float) (best : option Vec)
    (bs : Float) (m : Vec) (sc : Float) :
  Forall (fun s => f_isnan s = false) seen ->
  loop_inv pre seen best bs ->
  if f_lt sc bs
  then loop_inv (pre ++ [m]) (seen ++ [sc]) (Some m) sc
  else loop_inv (pre ++ [m]) (seen ++ [sc]) best bs.
Proof.
  intros Hnan [Hlen Hinv].
  assert (Hlen' : length (pre ++ [m]) = length (seen ++ [sc]))
    by (rewrite !length_app; cbn; lia).
  assert (Hm : (pre ++ [m]) !! length seen = Some m).
  { rewrite <- Hlen, lookup_app_r by lia. now rewrite Nat.sub_diag. }
  destruct best as [b|].
  - destruct Hinv as (k & Hb & Hmin).
    destruct (f_lt sc bs) eqn:E; (split; [exact Hlen'|]).
    + exists (length seen). split; [exact Hm|].
      apply (first_min_snoc_lt seen bs sc Hnan); [|exact E].
      destruct Hmin as (_ & Hle & _). exact Hle.
    + exists k. split.
      * pose proof (lookup_lt_Some _ _ _ Hb). now rewrite lookup_app_l.
      * now apply first_min_snoc_ge.
  - destruct Hinv as [-> Hall].
    destruct (f_lt sc f_inf) eqn:E; (split; [exact Hlen'|]).
    + exists (length seen). split; [exact Hm|].
      now apply (first_min_snoc_lt seen f_inf sc Hnan).
    + split; [reflexivity|].
      intros j s' Hj. apply lookup_snoc_Some in Hj as [[_ Hj]|[_ <-]];
        [eapply Hall, Hj|exact E].
Qed.

(** The scores the loop computes for the moves [l], drawing from [r]. *)
Lemma loop_fold (ghost : Sprite) (moves : list Vec) (target : Point)
    (w : Weights) (others : list Sprite) (reverse : option Vec)
    (l pre : list Vec) (seen : list Float) (best : option Vec) (bs : Float)
    (r : Rng) :
  Forall (fun s => f_isnan s = false) seen ->
  Forall (fun s => f_isnan s = false)
    (zip_with (score ghost moves target w others reverse) l
       (draws r (length l))) ->
  loop_inv pre seen best bs ->
  exists best' bs',
    fold_left (loop_body ghost moves target w others reverse) l (best, bs, r)
    = (best', bs', advance r (length l))
    /\ loop_inv (pre ++ l)
         (seen ++ zip_with (score ghost moves target w others reverse) l
                    (draws r (length l)))
         best' bs'.
Proof.
  revert pre seen best bs r.
  induction l as [|m l IH]; intros pre seen best bs r Hseen Hnew Hinv.
  - exists best, bs. cbn. rewrite !app_nil_r. split; [reflexivity|exact Hinv].
  - cbn [fold_left length draws advance zip_with] in Hnew |- *.
    rewrite loop_body_eq.
    set (sc := score ghost moves target w others reverse m (random r).1) in *.
    apply Forall_cons in Hnew as [Hsc Hrest].
    assert (Hseen' : Forall (fun s => f_isnan s = false) (seen ++ [sc])).
    { apply Forall_app. split; [exact Hseen|]. now constructor. }
    pose proof (loop_inv_step pre seen best bs m sc Hseen Hinv) as Hstep.
    destruct (f_lt sc bs);
      destruct (IH _ _ _ _ (random r).2 Hseen' Hrest Hstep)
        as (best' & bs' & Hf & Hi);
      exists best', bs'; rewrite <- !app_assoc in Hi; cbn [app] in Hi;
      (split; [exact Hf|exact Hi]).
Qed.

(** When no score is below [inf] and none is a NaN, the first score is a
    minimum: the case in which the loop holds no move and [moves[0]] is
    answered. *)
Lemma first_min_head (scores : list Float) (s0 : Float) :
  scores !! 0%nat = Some s0 ->
  (forall j s', scores !! j = Some s' -> f_lt s' f_inf = false) ->
  first_min scores 0 s0.
Proof.
  intros Hhead Hall. split; [exact Hhead|]. split.
  - intros j s' Hj. destruct (f_lt s' s0) eqn:E; [|reflexivity].
    destruct (f_lt_between s' s0 f_inf f_inf_number E) as [Hl|Hr].
    + rewrite (Hall j s' Hj) in Hl. discriminate.
    + rewrite f_inf_top in Hr. discriminate.
  - intros j s' Hj. lia.
Qed.

Lemma draws_range (r : Rng) (n : nat) :
  Forall (fun j => (0 <= j < 1)%Q) (draws r n).
Proof.
  revert r; induction n as [|n IH]; intros r; cbn [draws]; constructor;
    [apply random_range|apply IH].
Qed.

Lemma length_draws (r : Rng) (n : nat) : length (draws r n) = n.
Proof. revert r; induction n as [|n IH]; intros r; cbn; [|rewrite IH]; easy. Qed.

(** C5: for a non-empty list of free candidates [_choose_best_move] draws one
    jitter value in [[0,1)] per candidate, in order, and scores each
    candidate, in doubles, as
    [w_dist * manhattan(next, target) + w_reverse * reversal penalty
     + w_separation * (sum over the other ghosts of
       1 / (manhattan(next, other) + 1)) * 1000 + w_jitter * jitter * 50].
    As long as no score is a NaN, the call answers the candidate at the
    first index whose score is minimal: no candidate scores below it, and it
    scores below every candidate before it.  The free candidates reach it in
    the order left, right, up, down. *)
Theorem _choose_best_move_first_min (self : t) (ghost : Sprite)
    (moves : list Vec) (target : Point) (w : Weights)
    (other_ghosts : list Sprite) (walls : Group) (gate : option Group) :
  moves <> [] ->
  let jitters := draws (rng self) (length moves) in
  let scores :=
    zip_with
      (fun m j =>
         spec_score ghost target w other_ghosts
           (rev_pen (reverse_of self ghost) moves m) m j)
      moves jitters in
  Forall (fun s => f_isnan s = false) scores ->
  Forall (fun j => (0 <= j < 1)%Q) jitters
  /\ length scores = length moves
  /\ (exists k best s,
        _choose_best_move self ghost moves target w other_ghosts
        = (Ok best, advance (rng self) (length moves))
        /\ moves !! k = Some best
        /\ first_min scores k s)
  /\ _possible_moves self ghost walls gate
     = List.filter (is_free ghost walls gate)
         [ (- step self, 0); (step self, 0);
           (0, - step self); (0, step self) ].
Proof.
  intros Hne jitters scores Hnan.
  split; [apply draws_range|].
  assert (Hlen : length scores = length moves).
  { unfold scores, jitters. rewrite length_zip_with, length_draws. lia. }
  split; [exact Hlen|].
  split; [|apply _possible_moves_filter].
  assert (Hstart : loop_inv [] [] None f_inf).
  { split; [reflexivity|]. split; [reflexivity|]. intros j s' Hj.
    rewrite lookup_nil in Hj. discriminate. }
  destruct (loop_fold ghost moves target w other_ghosts
              (reverse_of self ghost) moves [] [] None f_inf (rng self)
              (Forall_nil_2 _) Hnan Hstart)
    as (best' & bs' & Hfold & [_ Hinv]).
  cbn [app] in Hinv.
  change (zip_with _ moves (draws (rng self) (length moves))) with scores
    in Hinv.
  unfold _choose_best_move. rewrite Hfold.
  destruct best' as [b|].
  - destruct Hinv as (k & Hb & Hmin).
    exists k, b, bs'. repeat split; try assumption; apply Hmin.
  - destruct Hinv as [_ Hall].
    destruct moves as [|m0 ms]; [contradiction|].
    destruct scores as [|s0 ss] eqn:Es; [discriminate|].
    exists 0%nat, m0, s0. split; [reflexivity|]. split; [reflexivity|].
    now apply first_min_head.
Qed.

(** *** Targets *)

(** The herder's distance test in pixels, for a positive tile. *)
Lemma dist_tiles_gt (d tile : Z) (c : Z) :
  0 < tile ->
  (inject_Z c < inject_Z d / inject_Z tile)%Q <-> c * tile < d.
Proof.
  intros Ht.
  assert (HtQ : (0 < inject_Z tile)%Q) by (rewrite <- (Zlt_Qlt 0); exact Ht).
  rewrite Zlt_Qlt, inject_Z_mult. split; intros Hlt.
  - apply (Qmult_lt_compat_r _ _ (inject_Z tile)) in Hlt; [|exact HtQ].
    assert (E : (inject_Z d / inject_Z tile * inject_Z tile
                 == inject_Z d)%Q).
    { field. intros E. rewrite E in HtQ. now apply Qlt_irrefl in HtQ. }
    rewrite E in Hlt. exact Hlt.
  - apply Qlt_shift_div_l; assumption.
Qed.

(** C6: the herder ("clyde") targets the player when the Manhattan distance
    between ghost and player, divided by the tile size, is strictly greater
    than 6.0, and its scatter corner (bottom-left) otherwise; at exactly 6.0
    tiles it targets the corner.  The tile is non-zero, so that the distance
    in tiles is defined; for a positive tile the test is
    [distance in pixels > 6 * tile]. *)
Theorem herder_target (self : t) (ghost pacman : Sprite)
    (blinky : option Sprite) :
  tile self <> 0 ->
  let pac := Rect.center (rect pacman) in
  let dist := _manhattan (Rect.center (rect ghost)) pac in
  let dist_tiles := (inject_Z dist / inject_Z (tile self))%Q in
  let corner := (30, board_size self - 30) in
  scatter_targets self !! "clyde" = Some corner
  /\ ((6 < dist_tiles)%Q ->
      _compute_target self "clyde" ghost pacman blinky = Ok pac)
  /\ ((dist_tiles <= 6)%Q ->
      _compute_target self "clyde" ghost pacman blinky = Ok corner)
  /\ ((dist_tiles == 6)%Q ->
      _compute_target self "clyde" ghost pacman blinky = Ok corner)
  /\ (0 < tile self -> ((6 < dist_tiles)%Q <-> 6 * tile self < dist)).
Proof.
  intros Ht pac dist dist_tiles corner.
  assert (Hcode : _compute_target self "clyde" ghost pacman blinky
                  = if Qlt_bool 6.0 dist_tiles then Ok pac else Ok corner).
  { unfold _compute_target. cbn [String.eqb Ascii.eqb Bool.eqb].
    destruct (tile self =? 0) eqn:E; [apply Z.eqb_eq in E; contradiction|].
    rewrite scatter_targets_clyde. reflexivity. }
  assert (E6 : (6.0 == 6)%Q) by reflexivity.
  assert (Hle : (dist_tiles <= 6)%Q ->
                _compute_target self "clyde" ghost pacman blinky = Ok corner).
  { intros Hd. rewrite Hcode.
    destruct (Qlt_bool 6.0 dist_tiles) eqn:E; [|reflexivity].
    apply Qlt_bool_iff in E. rewrite E6 in E.
    exfalso. eapply Qlt_not_le; eassumption. }
  split; [reflexivity|]. split; [|split; [exact Hle|split]].
  - intros Hd. rewrite Hcode.
    destruct (Qlt_bool 6.0 dist_tiles) eqn:E; [reflexivity|].
    apply Qlt_bool_false in E. rewrite E6 in E.
    exfalso. eapply Qlt_not_le; eassumption.
  - intros Hd. apply Hle. rewrite Hd. apply Qle_refl.
  - intros Hpos. apply (dist_tiles_gt dist (tile self) 6 Hpos).
Qed.

(** C7: the intercept role ("inky") computes the ahead-point two tiles from
    the player along the player's sign-normalised facing.  Without a
    reference ghost the target is the ahead-point; with one it is the
    reflection of the reference ghost's centre through the ahead-point,
    [(2*ahead.x - ref.x, 2*ahead.y - ref.y)].  An ahead-point of (160,100) and
    a reference ghost centred at (100,100) give the target (220,100). *)
Theorem intercept_target (self : t) (ghost pacman : Sprite) :
  let pac := Rect.center (rect pacman) in
  let facing := _normalize_dir (change pacman).1 (change pacman).2 in
  let ahead :=
    (pac.1 + 2 * tile self * facing.1, pac.2 + 2 * tile self * facing.2) in
  _compute_target self "inky" ghost pacman None = Ok ahead
  /\ (forall ref : Sprite,
        _compute_target self "inky" ghost pacman (Some ref)
        = Ok (2 * ahead.1 - (Rect.center (rect ref)).1,
              2 * ahead.2 - (Rect.center (rect ref)).2))
  /\ (forall ref : Sprite,
        ahead = (160, 100) -> Rect.center (rect ref) = (100, 100) ->
        _compute_target self "inky" ghost pacman (Some ref) = Ok (220, 100)).
Proof.
  intros pac facing ahead.
  assert (Hahead :
    (pac.1 + facing.1 * tile self * 2, pac.2 + facing.2 * tile self * 2)
    = ahead) by (unfold ahead; f_equal; lia).
  assert (Hnone : _compute_target self "inky" ghost pacman None = Ok ahead).
  { unfold _compute_target. cbn [String.eqb Ascii.eqb Bool.eqb].
    fold pac. exact (f_equal Ok Hahead). }
  assert (Hsome : forall ref : Sprite,
    _compute_target self "inky" ghost pacman (Some ref)
    = Ok (2 * ahead.1 - (Rect.center (rect ref)).1,
          2 * ahead.2 - (Rect.center (rect ref)).2)).
  { intros ref. unfold _compute_target. cbn [String.eqb Ascii.eqb Bool.eqb].
    fold pac. cbv zeta.
    change (_normalize_dir (getattr0 (change_x pacman))
              (getattr0 (change_y pacman))) with facing.
    rewrite Hahead. reflexivity. }
  split; [exact Hnone|]. split; [exact Hsome|].
  intros ref Ha Hr. rewrite Hsome, Ha, Hr. reflexivity.
Qed.

(** C8: under the converge override role the target is the player's current
    position, whatever the ghost, its facing and the reference ghost are; so
    it is for every spelling of the role name that [lower] maps to
    "converge". *)
Theorem converge_target (self : t) (ghost pacman : Sprite)
    (blinky : option Sprite) :
  _compute_target self "converge" ghost pacman blinky
  = Ok (Rect.center (rect pacman))
  /\ forall ghost_name : string,
       lower ghost_name = "converge"%string ->
       _compute_target self (lower ghost_name) ghost pacman blinky
       = Ok (Rect.center (rect pacman)).
Proof.
  split; [reflexivity|]. intros ghost_name ->. reflexivity.
Qed.

End Proofs.

(** The theorem at work: a ghost heading right in a dead end whose only
    exit is behind it. *)
Lemma set_ghost_direction_free_or_idle_witness :
  @tile Sample.lcg_random Sample.engine <> 0
  /\ exists self' ghost',
       @set_ghost_direction Sample.rect_collision Sample.lcg_random
         Sample.double_arith Sample.engine "Clyde" Sample.ghost_open
         Sample.pacman Sample.dead_end None None None = Ok (self', ghost')
       /\ rect ghost' = rect Sample.ghost_open.
Proof.
  split; [discriminate|].
  destruct (@set_ghost_direction_free_or_idle Sample.rect_collision
              Sample.lcg_random Sample.double_arith Sample.engine "Clyde"
              Sample.ghost_open Sample.pacman Sample.dead_end None None None)
    as (self' & ghost' & Hcall & Hrect & _); [discriminate|].
  exists self', ghost'. split; assumption.
Defined.

(** The same dead end: the only free candidate is the reverse of the
    ghost's facing, it is not penalised, and it is written. *)
Lemma reversal_penalty_rule_witness :
  @tile Sample.lcg_random Sample.engine <> 0
  /\ @_possible_moves Sample.rect_collision Sample.lcg_random Sample.engine
       Sample.ghost_open Sample.dead_end None = [Sample.back]
  /\ @reverse_of Sample.lcg_random Sample.engine Sample.ghost_open
     = Some Sample.back
  /\ (rev_pen (@reverse_of Sample.lcg_random Sample.engine Sample.ghost_open)
        [Sample.back] Sample.back == 0)%Q
  /\ exists self' ghost',
       @set_ghost_direction Sample.rect_collision Sample.lcg_random
         Sample.double_arith Sample.engine "Clyde" Sample.ghost_open
         Sample.pacman Sample.dead_end None None None = Ok (self', ghost')
       /\ change ghost' = Sample.back.
Proof.
  split; [discriminate|]. split; [reflexivity|]. split; [reflexivity|].
  destruct (@reversal_penalty_rule Sample.rect_collision Sample.lcg_random
              Sample.double_arith Sample.engine "Clyde" Sample.ghost_open
              Sample.pacman Sample.dead_end None None None [Sample.back]
              Sample.back)
    as (_ & _ & _ & Hsingle).
  apply Hsingle; [discriminate|reflexivity].
Defined.

(** Four free candidates in an open corridor. *)
Lemma _choose_best_move_first_min_witness :
  Sample.four_moves <> []
  /\ exists k best,
       Sample.four_moves !! k = Some best
       /\ (@_choose_best_move Sample.lcg_random Sample.double_arith
            Sample.engine Sample.ghost_open Sample.four_moves
            (Rect.center (rect Sample.pacman)) Weights_default
            [Sample.pacman]).1 = Ok best.
Proof.
  split; [discriminate|].
  destruct (@_choose_best_move_first_min Sample.rect_collision
              Sample.lcg_random Sample.double_arith Sample.engine
              Sample.ghost_open Sample.four_moves
              (Rect.center (rect Sample.pacman)) Weights_default
              [Sample.pacman] Sample.no_walls None)
    as (_ & _ & (k & best & s & Hcall & Hk & _) & _);
    [discriminate|apply Forall_forall; reflexivity|].
  exists k, best. split; [exact Hk|]. rewrite Hcall. reflexivity.
Defined.

(** Rounding decides the mirror position.  Left and right are equally far
    from the target and face the same three separation terms, so their
    scores are equal as real numbers; but the terms are added in different
    orders, the two doubles differ in the last place, and the move to the
    right, the second candidate, is the one chosen. *)
Lemma rounding_breaks_the_tie :
  let w := mkWeights 1.0 2.5 0.2 0.0 in
  let target := Rect.center (rect Sample.pacman) in
  let score_of m :=
    @score Sample.double_arith Sample.idle_ghost Sample.two_moves target w
      Sample.mirror_ghosts None m 0 in
  weights Sample.engine !! "blinky" = Some w
  /\ @reverse_of Sample.lcg_random Sample.engine Sample.idle_ghost = None
  /\ score_of (-15, 0) = Finite (6025537795929735 # 35184372088832)
  /\ score_of (15, 0) = Finite (3012768897964867 # 17592186044416)
  /\ (@_choose_best_move Sample.lcg_random Sample.double_arith Sample.engine
        Sample.idle_ghost Sample.two_moves target w Sample.mirror_ghosts).1
     = Ok (15, 0).
Proof. repeat split; vm_compute; reflexivity. Qed.

(** A herder exactly six tiles (180 pixels) from the player retreats to its
    corner. *)
Lemma herder_target_witness :
  @tile Sample.lcg_random Sample.engine <> 0
  /\ @_compute_target Sample.lcg_random Sample.engine "clyde"
       Sample.ghost_open (Sample.sprite_at 0 285 465 0 0) None
     = Ok (30, 576).
Proof.
  split; [discriminate|].
  destruct (@herder_target Sample.lcg_random
              Sample.engine Sample.ghost_open
              (Sample.sprite_at 0 285 465 0 0) None)
    as (_ & _ & _ & Hsix & _); [discriminate|].
  apply Hsix. reflexivity.
Defined.

(** Player centred at (100,100) heading right with a 30-pixel tile: the
    ahead-point is (160,100); a reference ghost centred at (100,100) sends
    the target to (220,100). *)
Lemma intercept_target_witness :
  @_compute_target Sample.lcg_random Sample.engine "inky" Sample.ghost_open
    (Sample.sprite_at 0 85 85 30 0) (Some (Sample.sprite_at 2 85 85 0 0))
  = Ok (220, 100).
Proof.
  destruct (@intercept_target Sample.lcg_random
              Sample.engine Sample.ghost_open (Sample.sprite_at 0 85 85 30 0))
    as (_ & _ & Hex).
  apply Hex; reflexivity.
Defined.

Lemma converge_target_witness :
  lower "Converge" = "converge"%string
  /\ @_compute_target Sample.lcg_random Sample.engine (lower "Converge")
       Sample.ghost_open Sample.pacman None
     = Ok (Rect.center (rect Sample.pacman)).
Proof.
  split; [reflexivity|].
  apply (@converge_target Sample.lcg_random
           Sample.engine Sample.ghost_open Sample.pacman None).
  reflexivity.
Defined.

End GhostAIProofs.

(** * Properties of the meta-rule controller *)

Module MetaRulesProofs.
Import MetaRules.

(** Boolean tests on integers, read as propositions. *)
Ltac zbool :=
  repeat match goal with
  | H : (_ >? _) = true |- _ => apply Z.gtb_lt in H
  | H : (_ >? _) = false |- _ => rewrite Z.gtb_ltb in H; apply Z.ltb_ge in H
  | H : (_ >=? _) = true |- _ => rewrite Z.geb_leb in H; apply Z.leb_le in H
  | H : (_ >=? _) = false |- _ => rewrite Z.geb_leb in H; apply Z.leb_gt in H
  | H : (_ =? _) = true |- _ => apply Z.eqb_eq in H
  | H : (_ =? _) = false |- _ => apply Z.eqb_neq in H
  | H : (_ <? _) = true |- _ => apply Z.ltb_lt in H
  | H : (_ <? _) = false |- _ => apply Z.ltb_ge in H
  | H : negb _ = true |- _ => apply negb_true_iff in H
  | H : negb _ = false |- _ => apply negb_false_iff in H
  | H : _ && _ = true |- _ => apply andb_true_iff in H as [? ?]
  end.

(** Splits on the first [if] of the goal. *)
Ltac case_if :=
  match goal with
  | |- context [if ?b then _ else _] => destruct b eqn:?
  end.

Section Rules.

Context `{PyFloat}.


(** *** What the two rules leave untouched *)

Lemma _update_converge_rule_frame (self : t) (pac : Point)
    (ghosts : gmap string Sprite) :
  let self' := (_update_converge_rule self pac ghosts).1 in
  tile self' = tile self /\ cfg self' = cfg self
  /\ converge_cfg self' = converge_cfg self
  /\ role_map self' = role_map self
  /\ _role_swap_cooldown self' = _role_swap_cooldown self.
Proof.
  unfold _update_converge_rule. destruct self; cbn.
  repeat case_if; cbn; repeat split; reflexivity.
Qed.

Lemma _swap_roles_frame (self self' : t) :
  _swap_roles self = Ok self' ->
  tile self' = tile self /\ cfg self' = cfg self
  /\ converge_cfg self' = converge_cfg self
  /\ _escape_ticks self' = _escape_ticks self
  /\ _role_swap_cooldown self' = _role_swap_cooldown self
  /\ _converge_ticks self' = _converge_ticks self
  /\ _converge_cooldown self' = _converge_cooldown self
  /\ stdout self' = stdout self.
Proof.
  unfold _swap_roles. case_if.
  - intros [= <-]. repeat split; reflexivity.
  - destruct (roles_of _ _); [|discriminate].
    intros [= <-]. repeat split; reflexivity.
Qed.

Lemma _update_role_swap_rule_frame (self : t) (pac : Point)
    (ghosts : gmap string Sprite) :
  let self' := (_update_role_swap_rule self pac ghosts).1 in
  tile self' = tile self /\ cfg self' = cfg self
  /\ converge_cfg self' = converge_cfg self
  /\ _converge_ticks self' = _converge_ticks self
  /\ _converge_cooldown self' = _converge_cooldown self.
Proof.
  unfold _update_role_swap_rule.
  destruct (_min_dist_to_pacman_tiles self pac ghosts) as [d|e];
    [|cbn; repeat split; reflexivity].
  destruct self; cbn.
  repeat case_if; cbn; try (repeat split; reflexivity);
    match goal with
    | |- context [_swap_roles ?s] =>
        destruct (_swap_roles s) as [s'|e] eqn:E;
        [apply _swap_roles_frame in E; cbn in E; cbn; intuition congruence
        |cbn; repeat split; reflexivity]
    end.
Qed.

Lemma update_frame (self : t) (pacman : Sprite)
    (ghosts : gmap string Sprite) :
  let self' := (update self pacman ghosts).1 in
  tile self' = tile self /\ cfg self' = cfg self
  /\ converge_cfg self' = converge_cfg self.
Proof.
  unfold update.
  pose proof (_update_converge_rule_frame self (Rect.center (rect pacman))
                ghosts) as F1.
  destruct (_update_converge_rule self (Rect.center (rect pacman)) ghosts)
    as [self1 [m|]]; cbn in F1.
  - cbn. intuition.
  - pose proof (_update_role_swap_rule_frame self1
                  (Rect.center (rect pacman)) ghosts) as F2.
    destruct (_update_role_swap_rule self1 (Rect.center (rect pacman)) ghosts)
      as [self2 [u|e]]; cbn in F2 |- *; intuition congruence.
Qed.

(** *** Counters stay non-negative *)

Lemma _update_converge_rule_nonneg (self : t) (pac : Point)
    (ghosts : gmap string Sprite) :
  lengths_nonneg self -> counters_nonneg self ->
  counters_nonneg (_update_converge_rule self pac ghosts).1.
Proof.
  unfold lengths_nonneg, counters_nonneg, _update_converge_rule.
  destruct self; cbn. intros (Hs & Hh & Hc) (He & Hr & Ht & Hd).
  repeat case_if; cbn in *; zbool; repeat apply conj; lia.
Qed.

Lemma _update_role_swap_rule_nonneg (self : t) (pac : Point)
    (ghosts : gmap string Sprite) :
  lengths_nonneg self -> counters_nonneg self ->
  counters_nonneg (_update_role_swap_rule self pac ghosts).1.
Proof.
  unfold _update_role_swap_rule.
  destruct (_min_dist_to_pacman_tiles self pac ghosts) as [d|e];
    [|intros _ Hc; exact Hc].
  unfold lengths_nonneg, counters_nonneg.
  destruct self; cbn. intros (Hs & Hh & Hc) (He & Hr & Ht & Hd).
  repeat case_if; cbn in *; zbool; try (repeat apply conj; lia);
    match goal with
    | |- context [_swap_roles ?s] =>
        destruct (_swap_roles s) as [s'|e] eqn:E;
        [apply _swap_roles_frame in E; cbn in E;
         destruct E as (_ & E1 & _ & _ & _ & E2 & E3 & _);
         cbn; rewrite E1, E2, E3; cbn
        |cbn];
        repeat apply conj; lia
    end.
Qed.

Lemma update_nonneg (self : t) (pacman : Sprite)
    (ghosts : gmap string Sprite) :
  lengths_nonneg self -> counters_nonneg self ->
  counters_nonneg (update self pacman ghosts).1.
Proof.
  intros Hl Hc. unfold update.
  pose proof (_update_converge_rule_nonneg self (Rect.center (rect pacman))
                ghosts Hl Hc) as N1.
  pose proof (_update_converge_rule_frame self (Rect.center (rect pacman))
                ghosts) as F1.
  destruct (_update_converge_rule self (Rect.center (rect pacman)) ghosts)
    as [self1 [m|]]; cbn in N1, F1; [exact N1|].
  assert (Hl1 : lengths_nonneg self1).
  { unfold lengths_nonneg in *. destruct F1 as (_ & -> & -> & _). exact Hl. }
  pose proof (_update_role_swap_rule_nonneg self1 (Rect.center (rect pacman))
                ghosts Hl1 N1) as N2.
  destruct (_update_role_swap_rule self1 (Rect.center (rect pacman)) ghosts)
    as [self2 [u|e]]; exact N2.
Qed.

Lemma update_lengths (self : t) (pacman : Sprite)
    (ghosts : gmap string Sprite) :
  lengths_nonneg self -> lengths_nonneg (update self pacman ghosts).1.
Proof.
  unfold lengths_nonneg.
  destruct (update_frame self pacman ghosts) as (_ & -> & ->). easy.
Qed.

Lemma run_cons (self : t) (pacman : Sprite) (ghosts : gmap string Sprite)
    (rest : list (Sprite * gmap string Sprite)) :
  run self ((pacman, ghosts) :: rest)
  = ((run (update self pacman ghosts).1 rest).1,
     (update self pacman ghosts).2 :: (run (update self pacman ghosts).1 rest).2).
Proof.
  cbn [run]. destruct (update self pacman ghosts) as [self' res].
  cbn [fst snd]. destruct (run self' rest). reflexivity.
Qed.

(** C9: the four counters are non-negative when the controller is built,
    and, the configured hold, cooldown and swap-cooldown lengths being
    non-negative, they are non-negative after every [update] call: after one
    call from any state whose counters are non-negative (whether the call
    returns or raises), hence after any sequence of calls from the initial
    state. *)
Theorem counters_never_negative (tile : Z) (config : option RoleSwapConfig)
    (converge_config : option ConvergeConfig) :
  counters_nonneg (__init__ tile config converge_config)
  /\ (forall self pacman ghosts,
        lengths_nonneg self -> counters_nonneg self ->
        counters_nonneg (update self pacman ghosts).1)
  /\ (lengths_nonneg (__init__ tile config converge_config) ->
      forall ticks,
        counters_nonneg (run (__init__ tile config converge_config) ticks).1).
Proof.
  split; [unfold counters_nonneg; cbn; lia|]. split; [exact update_nonneg|].
  intros Hl ticks.
  assert (Hc : counters_nonneg (__init__ tile config converge_config))
    by (unfold counters_nonneg; cbn; lia).
  revert Hl Hc. generalize (__init__ tile config converge_config).
  induction ticks as [|[pacman ghosts] rest IH]; intros self Hl Hc.
  - exact Hc.
  - rewrite run_cons. cbn [fst].
    apply IH; [now apply update_lengths|now apply update_nonneg].
Qed.

(** *** Role rotation *)

(** A total mapping has four roles, one per identity, in identity order. *)
Lemma roles_of_four (m : gmap string string) (roles : list string) :
  roles_of m ghost_ids = Some roles ->
  exists a b c d, roles = [a; b; c; d].
Proof.
  unfold ghost_ids. cbn [roles_of].
  destruct (m !! "blinky") as [a|]; [|discriminate].
  destruct (m !! "pinky") as [b|]; [|discriminate].
  destruct (m !! "inky") as [c|]; [|discriminate].
  destruct (m !! "clyde") as [d|]; [|discriminate].
  intros [= <-]. now exists a, b, c, d.
Qed.

Lemma role_map_total_roles (m : gmap string string) :
  role_map_total m <-> exists roles, roles_of m ghost_ids = Some roles.
Proof.
  unfold role_map_total, ghost_ids. rewrite !Forall_cons. cbn [roles_of].
  split.
  - intros ([a ->] & [b ->] & [c ->] & [d ->] & _). eauto.
  - intros [roles Hr].
    destruct (m !! "blinky"); [|discriminate].
    destruct (m !! "pinky"); [|discriminate].
    destruct (m !! "inky"); [|discriminate].
    destruct (m !! "clyde"); [|discriminate].
    repeat split; eauto.
Qed.

Lemma rotate_roles_mod (s : Z) (a b c d : string) :
  rotate_roles s [a; b; c; d] = rotate_roles (s mod 4) [a; b; c; d].
Proof.
  unfold rotate_roles. cbn [length seq map Z.of_nat Pos.of_succ_nat Pos.succ].
  now rewrite !Zminus_mod_idemp_r.
Qed.

Lemma step_mod_four (s : Z) :
  s mod 4 = 0 \/ s mod 4 = 1 \/ s mod 4 = 2 \/ s mod 4 = 3.
Proof. pose proof (Z.mod_pos_bound s 4 eq_refl). lia. Qed.

(** [_swap_roles] rotates the roles, listed in identity order, by the
    configured step. *)
Lemma _swap_roles_rotates (self : t) (roles : list string) :
  roles_of (role_map self) ghost_ids = Some roles ->
  exists self',
    _swap_roles self = Ok self'
    /\ roles_of (role_map self') ghost_ids
       = Some (rotate_roles (rotation_step (cfg self)) roles).
Proof.
  intros Hr. destruct (roles_of_four _ _ Hr) as (a & b & c & d & ->).
  rewrite rotate_roles_mod. unfold _swap_roles. rewrite Hr.
  change (Z.of_nat (length ghost_ids)) with 4.
  destruct (step_mod_four (rotation_step (cfg self))) as [E|[E|[E|E]]];
    rewrite E; cbn [Z.eqb].
  - exists self. split; [reflexivity|exact Hr].
  - eexists. split; [reflexivity|]. reflexivity.
  - eexists. split; [reflexivity|]. reflexivity.
  - eexists. split; [reflexivity|]. reflexivity.
Qed.

(** One pass of the role-swap rule, when the distance computation returns
    and every identity has a role. *)
Lemma _update_role_swap_rule_step (self : t) (pac : Point)
    (ghosts : gmap string Sprite) (min_dist : pyfloat) (roles : list string) :
  _min_dist_to_pacman_tiles self pac ghosts = Ok min_dist ->
  roles_of (role_map self) ghost_ids = Some roles ->
  let escape :=
    if fge min_dist (Finite (safe_distance_tiles (cfg self)))
    then _escape_ticks self + 1 else 0 in
  let cooldown :=
    if _role_swap_cooldown self >? 0 then _role_swap_cooldown self - 1
    else _role_swap_cooldown self in
  exists self',
    _update_role_swap_rule self pac ghosts = (self', Ok tt)
    /\ if (escape >=? escape_ticks_threshold (cfg self)) && (cooldown =? 0)
       then roles_of (role_map self') ghost_ids
            = Some (rotate_roles (rotation_step (cfg self)) roles)
            /\ _escape_ticks self' = 0
            /\ _role_swap_cooldown self' = swap_cooldown_ticks (cfg self)
            /\ stdout self' = stdout self ++ ["Roles have been swapped"%string]
       else role_map self' = role_map self
            /\ _escape_ticks self' = escape
            /\ _role_swap_cooldown self' = cooldown
            /\ stdout self' = stdout self.
Proof.
  intros Hmin Hroles escape cooldown.
  unfold _update_role_swap_rule. rewrite Hmin. clear Hmin.
  destruct self as [tl cf ccf rm e c h cd out];
    cbn [cfg _escape_ticks _role_swap_cooldown role_map stdout] in *.
  subst escape cooldown.
  destruct (fge min_dist _); cbn; destruct (c >? 0); cbn;
    match goal with
    | |- context [if ?b then _ else _] => destruct b
    end;
    try (eexists; split; [reflexivity|]; repeat split; reflexivity);
    match goal with
    | |- context [_swap_roles ?s] =>
        destruct (_swap_roles_rotates s roles Hroles) as (s3 & Hswap & Hrot);
        rewrite Hswap; eexists; (split; [reflexivity|]);
        apply _swap_roles_frame in Hswap
          as (_ & Hcfg & _ & _ & _ & _ & _ & Hout);
        cbn in Hrot, Hcfg, Hout |- *; rewrite Hcfg;
        repeat split; assumption
    end.
Qed.

(** When the converge rule does not override, it has at most decremented
    its cooldown. *)
Lemma _update_converge_rule_None (self self1 : t) (pac : Point)
    (ghosts : gmap string Sprite) :
  _update_converge_rule self pac ghosts = (self1, None) ->
  self1 = set_converge_cooldown self (cooldown_after_decrement self).
Proof.
  unfold _update_converge_rule, cooldown_after_decrement.
  destruct self as [tl cf ccf rm e c h cd out]; cbn.
  destruct (cd >? 0); cbn; repeat (case_if; cbn); intros [= <-];
    reflexivity.
Qed.

(** C3: on an [update] tick that the converge rule does not override (and on
    which the distance computation returns and every identity has a role),
    let [escape] be the escape-tick counter after this tick's increment or
    reset and [cooldown] the swap cooldown after this tick's decrement.  If
    [escape] has reached the configured threshold and [cooldown] is zero, the
    roles, listed in identity order, are rotated once by the configured step,
    the escape-tick counter is reset to zero, the swap cooldown is set to its
    configured length and one line is printed; otherwise the mapping is left
    alone.  Rotating [[A,B,C,D]] by step 1 yields [[D,A,B,C]]; a step that is
    a multiple of four changes nothing; steps equal modulo four rotate
    alike. *)
Theorem role_swap_rotation (self self1 : t) (pacman : Sprite)
    (ghosts : gmap string Sprite) (min_dist : pyfloat)
    (roles : list string) :
  let pac := Rect.center (rect pacman) in
  _update_converge_rule self pac ghosts = (self1, None) ->
  _min_dist_to_pacman_tiles self1 pac ghosts = Ok min_dist ->
  roles_of (role_map self) ghost_ids = Some roles ->
  let escape :=
    if fge min_dist (Finite (safe_distance_tiles (cfg self)))
    then _escape_ticks self + 1 else 0 in
  let cooldown :=
    if _role_swap_cooldown self >? 0 then _role_swap_cooldown self - 1
    else _role_swap_cooldown self in
  (exists self',
     update self pacman ghosts = (self', Ok (role_map self'))
     /\ (escape_ticks_threshold (cfg self) <= escape /\ cooldown = 0 ->
         roles_of (role_map self') ghost_ids
         = Some (rotate_roles (rotation_step (cfg self)) roles)
         /\ _escape_ticks self' = 0
         /\ _role_swap_cooldown self' = swap_cooldown_ticks (cfg self)
         /\ stdout self' = stdout self ++ ["Roles have been swapped"%string])
     /\ (~ (escape_ticks_threshold (cfg self) <= escape /\ cooldown = 0) ->
         role_map self' = role_map self
         /\ _escape_ticks self' = escape
         /\ _role_swap_cooldown self' = cooldown
         /\ stdout self' = stdout self))
  /\ (forall a b c d : string,
        rotate_roles 1 [a; b; c; d] = [d; a; b; c]
        /\ rotate_roles 0 [a; b; c; d] = [a; b; c; d]
        /\ forall s, rotate_roles s [a; b; c; d]
                     = rotate_roles (s mod 4) [a; b; c; d])
  /\ (forall self0 : t,
        rotation_step (cfg self0) mod 4 = 0 -> _swap_roles self0 = Ok self0)
  /\ (forall (self0 : t) (a b c d : string),
        roles_of (role_map self0) ghost_ids = Some [a; b; c; d] ->
        rotation_step (cfg self0) = 1 ->
        exists self', _swap_roles self0 = Ok self'
                      /\ roles_of (role_map self') ghost_ids
                         = Some [d; a; b; c]).
Proof.
  intros pac Hconv Hmin Hroles escape cooldown.
  split; [|split; [|split]].
  - pose proof (_update_converge_rule_None _ _ _ _ Hconv) as ->.
    destruct (_update_role_swap_rule_step _ pac ghosts min_dist roles
                Hmin Hroles) as (self' & Hrule & Hcase).
    exists self'. split.
    + unfold update. fold pac. rewrite Hconv, Hrule. reflexivity.
    + cbn [cfg _escape_ticks _role_swap_cooldown role_map stdout
             set_converge_cooldown] in Hcase.
      fold escape cooldown in Hcase.
      destruct ((escape >=? escape_ticks_threshold (cfg self))
                && (cooldown =? 0)) eqn:E.
      * split; [intros _; exact Hcase|].
        intros Hn. exfalso. apply Hn. zbool. split; [lia|assumption].
      * split; [|intros _; exact Hcase].
        intros [H1 H2]. apply andb_false_iff in E as [E|E]; zbool; lia.
  - intros a b c d. split; [reflexivity|]. split; [reflexivity|].
    intros s. apply rotate_roles_mod.
  - intros self0 E. unfold _swap_roles.
    change (Z.of_nat (length ghost_ids)) with 4. rewrite E. reflexivity.
  - intros self0 a b c d Hr E.
    destruct (_swap_roles_rotates self0 _ Hr) as (self' & Hs & Hrot).
    exists self'. split; [exact Hs|]. rewrite Hrot, E. reflexivity.
Qed.

(** *** The converge rule *)

Lemma all_converge_lookup (gid : string) :
  In gid ghost_ids -> all_converge !! gid = Some "converge"%string.
Proof.
  unfold ghost_ids. cbn [In].
  intros [<-|[<-|[<-|[<-|[]]]]]; reflexivity.
Qed.

(** What one identity adds to the set of sectors. *)
Lemma sector_step_elem (pac : Point) (ghosts : gmap string Sprite)
    (radius_px : Float) (sectors : gset string) (gid s : string) :
  s ∈ sector_step pac ghosts radius_px sectors gid
  <-> s ∈ sectors
      \/ exists g, ghosts !! gid = Some g
           /\ int_gt (Z.abs ((Rect.center (rect g)).1 - pac.1)
                      + Z.abs ((Rect.center (rect g)).2 - pac.2))
                radius_px = false
           /\ sector_of ((Rect.center (rect g)).1 - pac.1)
                 ((Rect.center (rect g)).2 - pac.2) = s.
Proof.
  unfold sector_step.
  destruct (ghosts !! gid) as [g|]; [|split; [now left|]].
  2: { intros [Hs|(g & Hg & _)]; [exact Hs|discriminate]. }
  cbn [Rect.center fst snd].
  set (dx := Rect.centerx (rect g) - pac.1).
  set (dy := Rect.centery (rect g) - pac.2).
  destruct (int_gt (Z.abs dx + Z.abs dy) radius_px) eqn:Hr.
  - split; [now left|].
    intros [Hs|(g' & [= <-] & Hle & _)]; [exact Hs|].
    fold dx dy in Hle. rewrite Hr in Hle. discriminate.
  - assert (Hcode :
      (if (dx >=? 0) && (dy <? 0) then {["NE"%string]} ∪ sectors
       else if (dx <? 0) && (dy <? 0) then {["NW"%string]} ∪ sectors
       else if (dx <? 0) && (dy >=? 0) then {["SW"%string]} ∪ sectors
       else {["SE"%string]} ∪ sectors)
      = {[sector_of dx dy]} ∪ sectors)
      by (unfold sector_of; repeat case_if; reflexivity).
    rewrite Hcode, elem_of_union, elem_of_singleton. split.
    + intros [->|Hs]; [right; exists g; easy|now left].
    + intros [Hs|(g' & [= <-] & _ & <-)]; [now right|now left].
Qed.

Lemma sector_fold_elem (pac : Point) (ghosts : gmap string Sprite)
    (radius_px : Float) (ids : list string) (sectors : gset string)
    (s : string) :
  s ∈ fold_left (sector_step pac ghosts radius_px) ids sectors
  <-> s ∈ sectors
      \/ exists gid g, In gid ids /\ ghosts !! gid = Some g
           /\ int_gt (Z.abs ((Rect.center (rect g)).1 - pac.1)
                      + Z.abs ((Rect.center (rect g)).2 - pac.2))
                radius_px = false
           /\ sector_of ((Rect.center (rect g)).1 - pac.1)
                 ((Rect.center (rect g)).2 - pac.2) = s.
Proof.
  revert sectors; induction ids as [|gid ids IH]; intros sectors;
    cbn [fold_left].
  - split; [now left|]. intros [Hs|(gid & g & [] & _)]. exact Hs.
  - rewrite IH, sector_step_elem. split.
    + intros [[Hs|(g & Hg & Hr & Hsec)]|(gid' & g & Hin & Hrest)].
      * now left.
      * right. exists gid, g. split; [now left|easy].
      * right. exists gid', g. split; [now right|easy].
    + intros [Hs|(gid' & g & [<-|Hin] & Hrest)].
      * left; now left.
      * left; right. exists g. exact Hrest.
      * right. exists gid', g. split; [exact Hin|exact Hrest].
Qed.

(** The sectors counted by the rule are those of the tracked ghosts within
    the radius. *)
Lemma occupied_sectors_elem (self : t) (pac : Point)
    (ghosts : gmap string Sprite) (s : string) :
  s ∈ occupied_sectors self pac ghosts
  <-> exists gid g, In gid ghost_ids /\ ghosts !! gid = Some g
        /\ within_radius self pac g
        /\ sector_of ((Rect.center (rect g)).1 - pac.1)
              ((Rect.center (rect g)).2 - pac.2) = s.
Proof.
  unfold occupied_sectors, within_radius. rewrite sector_fold_elem.
  split; [intros [Hs|Hex]; [set_solver|exact Hex]|intros Hex; now right].
Qed.

(** While the hold counter is positive the rule overrides. *)
Lemma _update_converge_rule_hold (self : t) (pac : Point)
    (ghosts : gmap string Sprite) :
  0 < _converge_ticks self ->
  exists self',
    _update_converge_rule self pac ghosts = (self', Some all_converge)
    /\ _converge_ticks self' = _converge_ticks self - 1
    /\ _escape_ticks self' = 0
    /\ _converge_cooldown self'
       = (if _converge_ticks self =? 1
          then cooldown_ticks (converge_cfg self)
          else cooldown_after_decrement self)
    /\ stdout self' = stdout self ++ ["Converge is active"%string].
Proof.
  intros Hh. unfold _update_converge_rule, cooldown_after_decrement.
  destruct self as [tl cf ccf rm e c h cd out]; cbn in *.
  assert (Hgt : (h >? 0) = true) by (apply Z.gtb_lt; exact Hh).
  destruct (cd >? 0); cbn; rewrite Hgt; cbn;
    destruct (h - 1 =? 0) eqn:E1, (h =? 1) eqn:E2; zbool; try lia;
    cbn; eexists; (split; [reflexivity|]); cbn; repeat apply conj;
    reflexivity.
Qed.

(** With the hold counter off and the cooldown over after its decrement,
    the rule counts sectors. *)
Lemma _update_converge_rule_detect (self : t) (pac : Point)
    (ghosts : gmap string Sprite) :
  _converge_ticks self <= 0 -> cooldown_after_decrement self = 0 ->
  _update_converge_rule self pac ghosts
  = if Z.of_nat (size (occupied_sectors self pac ghosts))
       >=? required_sectors (converge_cfg self)
    then (set_escape_ticks
            (set_converge_ticks (set_converge_cooldown self 0)
               (hold_ticks (converge_cfg self))) 0,
          Some all_converge)
    else (set_converge_cooldown self 0, None).
Proof.
  intros Hh Hcd. unfold _update_converge_rule, cooldown_after_decrement in *.
  destruct self as [tl cf ccf rm e c h cd out]; cbn in *.
  assert (Hle : (h >? 0) = false) by (rewrite Z.gtb_ltb; apply Z.ltb_ge; lia).
  destruct (cd >? 0); cbn; rewrite Hle; cbn; subst; cbn;
    try (assert (cd = 1) as -> by lia; cbn);
    unfold occupied_sectors; cbn; reflexivity.
Qed.

(** With the hold counter off and the cooldown still running after its
    decrement, the rule does nothing else. *)
Lemma _update_converge_rule_cooling (self : t) (pac : Point)
    (ghosts : gmap string Sprite) :
  _converge_ticks self <= 0 -> cooldown_after_decrement self <> 0 ->
  _update_converge_rule self pac ghosts
  = (set_converge_cooldown self (cooldown_after_decrement self), None).
Proof.
  intros Hh Hcd. unfold _update_converge_rule, cooldown_after_decrement in *.
  destruct self as [tl cf ccf rm e c h cd out]; cbn in *.
  assert (Hle : (h >? 0) = false) by (rewrite Z.gtb_ltb; apply Z.ltb_ge; lia).
  destruct (cd >? 0); cbn; rewrite Hle; cbn.
  - destruct (cd - 1 =? 0) eqn:E; zbool; [contradiction|reflexivity].
  - destruct (cd =? 0) eqn:E; zbool; [contradiction|reflexivity].
Qed.

(** C2 (amended): the converge rule as a state machine.  [update] first
    decrements a positive converge cooldown.  While the hold counter is
    positive, [update] decrements it, sets the escape-tick counter to zero and
    returns the all-converge mapping whatever the role-swap counters are, and
    when the hold counter thereby reaches zero the cooldown is set to its
    configured length.  With the hold counter off, detection runs exactly
    when the cooldown is zero after this tick's decrement, that is when it
    was 0 or 1 on entry: if the tracked ghosts within the Manhattan radius
    occupy at least the required number of distinct sectors, the hold counter
    is set to the configured hold length, the escape-tick counter to zero,
    and the all-converge mapping is returned at once; with fewer sectors
    there is no override.  A ghost is within the radius when its distance
    in pixels is not greater than [radius_tiles * float(tile)], the product
    as the machine rounds it.  If the cooldown is still non-zero after the
    decrement, no detection takes place, whatever the ghosts. *)
Theorem converge_rule_state_machine (self : t) (pacman : Sprite)
    (ghosts : gmap string Sprite) :
  let pac := Rect.center (rect pacman) in
  let after := (update self pacman ghosts).1 in
  let sectors := occupied_sectors self pac ghosts in
  (forall s, s ∈ sectors
     <-> exists gid g, In gid ghost_ids /\ ghosts !! gid = Some g
           /\ within_radius self pac g
           /\ sector_of ((Rect.center (rect g)).1 - pac.1)
                 ((Rect.center (rect g)).2 - pac.2) = s)
  /\ (forall gid, In gid ghost_ids ->
                  all_converge !! gid = Some "converge"%string)
  /\ (0 < _converge_ticks self ->
      (update self pacman ghosts).2 = Ok all_converge
      /\ _converge_ticks after = _converge_ticks self - 1
      /\ _escape_ticks after = 0
      /\ _converge_cooldown after
         = (if _converge_ticks self =? 1
            then cooldown_ticks (converge_cfg self)
            else cooldown_after_decrement self)
      /\ role_map after = role_map self
      /\ _role_swap_cooldown after = _role_swap_cooldown self)
  /\ (_converge_ticks self <= 0 -> cooldown_after_decrement self = 0 ->
      required_sectors (converge_cfg self) <= Z.of_nat (size sectors) ->
      (update self pacman ghosts).2 = Ok all_converge
      /\ _converge_ticks after = hold_ticks (converge_cfg self)
      /\ _escape_ticks after = 0
      /\ _converge_cooldown after = 0
      /\ role_map after = role_map self
      /\ _role_swap_cooldown after = _role_swap_cooldown self)
  /\ (_converge_ticks self <= 0 -> cooldown_after_decrement self = 0 ->
      Z.of_nat (size sectors) < required_sectors (converge_cfg self) ->
      _update_converge_rule self pac ghosts
      = (set_converge_cooldown self 0, None))
  /\ (_converge_ticks self <= 0 -> cooldown_after_decrement self <> 0 ->
      forall any_ghosts,
        _update_converge_rule self pac any_ghosts
        = (set_converge_cooldown self (cooldown_after_decrement self), None))
  /\ (cooldown_after_decrement self = 0
      <-> _converge_cooldown self = 0 \/ _converge_cooldown self = 1).
Proof.
  intros pac after sectors.
  split; [intros s; apply occupied_sectors_elem|].
  split; [exact all_converge_lookup|].
  split; [|split; [|split; [|split]]].
  - intros Hh.
    destruct (_update_converge_rule_hold self pac ghosts Hh)
      as (self' & Hrule & Ht & He & Hc & _).
    pose proof (_update_converge_rule_frame self pac ghosts) as F.
    unfold after, update. fold pac. rewrite Hrule in F |- *. cbn in F |- *.
    repeat apply conj; try assumption; try reflexivity; apply F.
  - intros Hh Hcd Hreq.
    pose proof (_update_converge_rule_frame self pac ghosts) as F.
    pose proof (_update_converge_rule_detect self pac ghosts Hh Hcd) as Hrule.
    fold sectors in Hrule.
    assert (E : (Z.of_nat (size sectors)
                 >=? required_sectors (converge_cfg self)) = true)
      by (rewrite Z.geb_leb; apply Z.leb_le; exact Hreq).
    rewrite E in Hrule. unfold after, update. fold pac.
    rewrite Hrule in F |- *. cbn in F |- *.
    repeat apply conj; try reflexivity; apply F.
  - intros Hh Hcd Hreq.
    rewrite (_update_converge_rule_detect self pac ghosts Hh Hcd).
    fold sectors.
    assert (E : (Z.of_nat (size sectors)
                 >=? required_sectors (converge_cfg self)) = false)
      by (rewrite Z.geb_leb; apply Z.leb_gt; exact Hreq).
    now rewrite E.
  - intros Hh Hcd any_ghosts. now apply _update_converge_rule_cooling.
  - unfold cooldown_after_decrement.
    destruct (_converge_cooldown self >? 0) eqn:E; zbool; lia.
Qed.

(** *** No tracked ghost *)









(** *** No sector required *)




End Rules.

#[local] Existing Instance Sample.double_arith.

Lemma counters_never_negative_witness :
  lengths_nonneg Sample.controller
  /\ counters_nonneg
       (run Sample.controller
          [(Sample.pacman, Sample.surrounding); (Sample.pacman, ∅)]).1.
Proof.
  assert (Hl : lengths_nonneg Sample.controller)
    by (unfold lengths_nonneg; cbn; lia).
  split; [exact Hl|].
  destruct (counters_never_negative 30 None None) as (_ & _ & Hrun).
  apply Hrun. exact Hl.
Defined.

(** Fifty-nine escape ticks on the clock, no ghost in sight: the sixtieth
    tick rotates the roles. *)
Lemma role_swap_rotation_witness :
  _update_converge_rule (set_escape_ticks Sample.controller 59)
    (Rect.center (rect Sample.pacman)) ∅
  = (set_escape_ticks Sample.controller 59, None)
  /\ _min_dist_to_pacman_tiles (set_escape_ticks Sample.controller 59)
       (Rect.center (rect Sample.pacman)) ∅ = Ok Infinity
  /\ roles_of (role_map (set_escape_ticks Sample.controller 59)) ghost_ids
     = Some ghost_ids
  /\ exists self',
       update (set_escape_ticks Sample.controller 59) Sample.pacman ∅
       = (self', Ok (role_map self'))
       /\ roles_of (role_map self') ghost_ids
          = Some ["clyde"; "blinky"; "pinky"; "inky"]%string.
Proof.
  assert (H1 : _update_converge_rule (set_escape_ticks Sample.controller 59)
                 (Rect.center (rect Sample.pacman)) ∅
               = (set_escape_ticks Sample.controller 59, None))
    by reflexivity.
  assert (H2 : _min_dist_to_pacman_tiles
                 (set_escape_ticks Sample.controller 59)
                 (Rect.center (rect Sample.pacman)) ∅ = Ok Infinity)
    by reflexivity.
  assert (H3 : roles_of (role_map (set_escape_ticks Sample.controller 59))
                 ghost_ids = Some ghost_ids)
    by reflexivity.
  split; [exact H1|]. split; [exact H2|]. split; [exact H3|].
  destruct (role_swap_rotation (set_escape_ticks Sample.controller 59)
              (set_escape_ticks Sample.controller 59) Sample.pacman ∅
              Infinity ghost_ids H1 H2 H3)
    as ((self' & Hupd & Hfire & _) & _).
  exists self'. split; [exact Hupd|].
  destruct Hfire as (Hrot & _); [split; [discriminate|reflexivity]|].
  exact Hrot.
Defined.

(** Three sectors occupied around a fresh controller: the override starts. *)
Lemma converge_rule_state_machine_witness :
  _converge_ticks Sample.controller <= 0
  /\ cooldown_after_decrement Sample.controller = 0
  /\ required_sectors (converge_cfg Sample.controller)
     <= Z.of_nat (size (occupied_sectors Sample.controller
                          (Rect.center (rect Sample.pacman))
                          Sample.surrounding))
  /\ (update Sample.controller Sample.pacman Sample.surrounding).2
     = Ok all_converge
  /\ _converge_ticks
       (update Sample.controller Sample.pacman Sample.surrounding).1 = 30.
Proof.
  assert (H1 : _converge_ticks Sample.controller <= 0) by (cbn; lia).
  assert (H2 : cooldown_after_decrement Sample.controller = 0)
    by reflexivity.
  assert (H3 : required_sectors (converge_cfg Sample.controller)
               <= Z.of_nat (size (occupied_sectors Sample.controller
                                    (Rect.center (rect Sample.pacman))
                                    Sample.surrounding)))
    by (vm_compute; discriminate).
  split; [exact H1|]. split; [exact H2|]. split; [exact H3|].
  destruct (converge_rule_state_machine Sample.controller Sample.pacman
              Sample.surrounding) as (_ & _ & _ & Htrigger & _).
  destruct (Htrigger H1 H2 H3) as (Hret & Hhold & _).
  split; [exact Hret|exact Hhold].
Defined.

(** C2 as first stated fails in its last clause: a controller whose converge
    cooldown is still positive (1) on entry, hold counter off, with ghosts in
    three sectors around the player, does evaluate detection: the call
    returns the all-converge mapping and starts a 30-tick hold. *)
Lemma cooldown_positive_still_detects :
  0 < _converge_cooldown Sample.cooling
  /\ _converge_ticks Sample.cooling = 0
  /\ (update Sample.cooling Sample.pacman Sample.surrounding).2
     = Ok all_converge
  /\ _converge_ticks
       (update Sample.cooling Sample.pacman Sample.surrounding).1 = 30
  /\ ~ (forall self pacman ghosts,
          _converge_ticks self = 0 -> 0 < _converge_cooldown self ->
          (_update_converge_rule self (Rect.center (rect pacman)) ghosts).2
          = None).
Proof.
  split; [reflexivity|]. split; [reflexivity|].
  split; [reflexivity|]. split; [reflexivity|].
  intros Hclaim.
  specialize (Hclaim Sample.cooling Sample.pacman Sample.surrounding
                eq_refl eq_refl).
  vm_compute in Hclaim. discriminate.
Qed.


(** The radius in pixels is the machine's product: with a radius of 0.57
    tiles of 100 pixels it falls short of 57, and a ghost whose centre is
    exactly 57 pixels from the player's is outside it and occupies no
    sector. *)
Lemma radius_px_is_rounded :
  let self := __init__ 100 None (Some (mkConvergeConfig 0.57 1 30 30)) in
  let ghost := Sample.sprite_at 1 42 (-15) 0 0 in
  Rect.center (rect ghost) = (57, 0)
  /\ ~ within_radius self (0, 0) ghost
  /\ occupied_sectors self (0, 0) {["blinky" := ghost]} = ∅.
Proof.
  intros self ghost. split; [reflexivity|]. split.
  - unfold within_radius. intros Hin. vm_compute in Hin. discriminate.
  - reflexivity.
Qed.


End MetaRulesProofs.

(** * Further properties of the decision engine *)

Module GhostAIMore.
Import GhostAI GhostAIProofs.

Section More.

Context `{Collision} `{PyRandom} `{PyFloat}.

(** X1: [_can_move] is a pure query.  The sprite comes back exactly as it
    went in (rect, facing and identity), and the answer is yes exactly when
    the sprite displaced by [(dx, dy)] touches no wall and, if a gate group
    is given, no gate. *)
Theorem _can_move_pure (sprite : Sprite) (dx dy : Z) (walls : Group)
    (gate : option Group) :
  (_can_move sprite dx dy walls gate).1 = sprite
  /\ ((_can_move sprite dx dy walls gate).2 = true
      <-> spritecollide (displaced sprite dx dy) walls = []
          /\ match gate with
             | Some g => spritecollide (displaced sprite dx dy) g = []
             | None => True
             end).
Proof.
  destruct sprite as [i [l t w h] cx cy].
  split; [reflexivity|].
  unfold _can_move, displaced; cbn.
  rewrite andb_true_iff, bool_decide_eq_true.
  destruct gate as [g|]; cbn.
  - rewrite negb_involutive, bool_decide_eq_true. reflexivity.
  - tauto.
Qed.

(** X2: [_manhattan] is a metric on points: non-negative, zero exactly on
    equal points, symmetric, and obeying the triangle inequality. *)
Theorem _manhattan_metric (a b c : Point) :
  0 <= _manhattan a b
  /\ (_manhattan a b = 0 <-> a = b)
  /\ _manhattan a b = _manhattan b a
  /\ _manhattan a c <= _manhattan a b + _manhattan b c.
Proof.
  destruct a as [a1 a2], b as [b1 b2], c as [c1 c2].
  unfold _manhattan; cbn [fst snd].
  split; [lia|]. split; [|split; lia].
  split.
  - intros E. f_equal; lia.
  - intros [= -> ->]. lia.
Qed.

Lemma _normalize_dir_sgn (dx dy : Z) :
  _normalize_dir dx dy = (Z.sgn dx, Z.sgn dy).
Proof.
  unfold _normalize_dir.
  destruct (dx =? 0) eqn:Ex, (dx >? 0) eqn:Gx, (dy =? 0) eqn:Ey,
    (dy >? 0) eqn:Gy; apply Z.eqb_eq in Ex || apply Z.eqb_neq in Ex;
    apply Z.eqb_eq in Ey || apply Z.eqb_neq in Ey;
    rewrite Z.gtb_ltb in Gx, Gy;
    apply Z.ltb_lt in Gx || apply Z.ltb_ge in Gx;
    apply Z.ltb_lt in Gy || apply Z.ltb_ge in Gy;
    f_equal; lia.
Qed.

(** X3: [_normalize_dir] takes the sign of each component: every component
    of the result is -1, 0 or 1; normalising twice changes nothing; and
    scaling a displacement by a positive factor does not change its
    facing. *)
Theorem _normalize_dir_sign (dx dy : Z) :
  _normalize_dir dx dy = (Z.sgn dx, Z.sgn dy)
  /\ (-1 <= (_normalize_dir dx dy).1 <= 1
      /\ -1 <= (_normalize_dir dx dy).2 <= 1)
  /\ _normalize_dir (_normalize_dir dx dy).1 (_normalize_dir dx dy).2
     = _normalize_dir dx dy
  /\ (forall k, 0 < k ->
        _normalize_dir (k * dx) (k * dy) = _normalize_dir dx dy).
Proof.
  pose proof _normalize_dir_sgn as Hsgn.
  split; [apply Hsgn|]. rewrite !Hsgn. cbn [fst snd].
  split; [lia|]. split.
  - f_equal; lia.
  - intros k Hk. rewrite !Hsgn, !Z.sgn_mul, (Z.sgn_pos k) by exact Hk.
    f_equal; lia.
Qed.

(** X4: the ambush role ("pinky") targets the player's centre projected four
    tiles along the player's sign-normalised facing, whatever the ghost and
    the reference ghost are.  A player standing still is targeted directly,
    and the target is never more than eight tiles (Manhattan) from the
    player. *)
Theorem ambush_target (self : t) (ghost pacman : Sprite)
    (blinky : option Sprite) :
  let pac := Rect.center (rect pacman) in
  let facing := _normalize_dir (change pacman).1 (change pacman).2 in
  let target :=
    (pac.1 + 4 * tile self * facing.1, pac.2 + 4 * tile self * facing.2) in
  _compute_target self "pinky" ghost pacman blinky = Ok target
  /\ (change pacman = (0, 0) -> target = pac)
  /\ _manhattan target pac
     = 4 * Z.abs (tile self) * (Z.abs facing.1 + Z.abs facing.2)
  /\ _manhattan target pac <= 8 * Z.abs (tile self).
Proof.
  intros pac facing target.
  assert (Hx : -1 <= facing.1 <= 1 /\ -1 <= facing.2 <= 1).
  { unfold facing. rewrite _normalize_dir_sgn. cbn [fst snd]. lia. }
  split; [|split; [|split]].
  - unfold _compute_target. cbn [String.eqb Ascii.eqb Bool.eqb].
    fold pac. cbv zeta.
    change (_normalize_dir (getattr0 (change_x pacman))
              (getattr0 (change_y pacman))) with facing.
    unfold target. do 2 f_equal; lia.
  - intros E. unfold target, facing. rewrite E.
    change (_normalize_dir (0, 0).1 (0, 0).2) with (0, 0). cbn [fst snd].
    rewrite !Z.mul_0_r, !Z.add_0_r. now destruct pac.
  - unfold target, _manhattan. cbn [fst snd]. nia.
  - unfold target, _manhattan. cbn [fst snd]. nia.
Qed.

(** X5: every role name other than "pinky", "inky" and "clyde" (so "blinky",
    "converge" and any unknown name) makes the target the player's centre,
    and no exception is possible for it, zero tile included. *)
Theorem direct_chase_target (self : t) (name : string)
    (ghost pacman : Sprite) (blinky : option Sprite) :
  name <> "pinky"%string -> name <> "inky"%string ->
  name <> "clyde"%string ->
  _compute_target self name ghost pacman blinky
  = Ok (Rect.center (rect pacman)).
Proof.
  intros Hp Hi Hc. unfold _compute_target.
  apply String.eqb_neq in Hp, Hi, Hc. rewrite Hp, Hi, Hc.
  now destruct (String.eqb name "blinky").
Qed.

Lemma candidates_NoDup (self : t) :
  step self <> 0 -> List.NoDup (candidates self).
Proof.
  intros Hs. unfold candidates.
  assert (Hneq : forall a b c d : Z, (a <> c \/ b <> d) -> (a, b) <> (c, d))
    by (intros a b c d Hd [= -> ->]; destruct Hd; congruence).
  repeat match goal with
  | |- List.NoDup [] => constructor
  | |- List.NoDup (_ :: _) => constructor
  | |- ~ In _ _ => cbn [In]; intros Hin
  end.
  - destruct Hin as [E|[E|[E|[]]]]; revert E; apply Hneq; lia.
  - destruct Hin as [E|[E|[]]]; revert E; apply Hneq; lia.
  - destruct Hin as [E|[]]; revert E; apply Hneq; lia.
  - destruct Hin.
Qed.

(** X6: [_possible_moves] returns exactly the candidates that pass
    [_can_move]: a move is in the result if and only if it is one of the four
    candidates and the check accepts it.  The result has at most four moves,
    each axis-aligned and of Manhattan length [|step|], and no move twice
    when the step is non-zero. *)
Theorem _possible_moves_exact (self : t) (ghost : Sprite) (walls : Group)
    (gate : option Group) :
  (forall m, In m (_possible_moves self ghost walls gate)
             <-> In m (candidates self) /\ is_free ghost walls gate m = true)
  /\ (length (_possible_moves self ghost walls gate) <= 4)%nat
  /\ (forall m, In m (_possible_moves self ghost walls gate) ->
                (m.1 = 0 \/ m.2 = 0)
                /\ _manhattan m (0, 0) = Z.abs (step self))
  /\ (step self <> 0 ->
      List.NoDup (_possible_moves self ghost walls gate)).
Proof.
  split; [intros m; apply _possible_moves_In|].
  rewrite _possible_moves_filter. split; [|split].
  - etransitivity; [apply filter_length_le|]. reflexivity.
  - intros m [Hin _]%filter_In. unfold candidates in Hin. cbn [In] in Hin.
    unfold _manhattan.
    destruct Hin as [<-|[<-|[<-|[<-|[]]]]]; cbn [fst snd]; lia.
  - intros Hs. apply List.NoDup_filter. now apply candidates_NoDup.
Qed.

(** The generator after [_choose_best_move]: one draw per move. *)
Lemma _choose_best_move_rng (self : t) (ghost : Sprite) (moves : list Vec)
    (target : Point) (w : Weights) (others : list Sprite) :
  (_choose_best_move self ghost moves target w others).2
  = advance (rng self) (length moves).
Proof.
  assert (Hloop : forall l best bs r,
            (fold_left
               (loop_body ghost moves target w others (reverse_of self ghost))
               l (best, bs, r)).2 = advance r (length l)).
  { induction l as [|m l IH]; intros best bs r; [reflexivity|].
    cbn [fold_left length advance]. rewrite loop_body_eq.
    destruct (f_lt _ bs); apply IH. }
  unfold _choose_best_move.
  specialize (Hloop moves None f_inf (rng self)).
  destruct (fold_left _ moves _) as [[best bs] r]. cbn [snd] in Hloop.
  destruct best; [exact Hloop|]. now destruct moves.
Qed.

(** [_compute_target] raises only for the herder with a zero tile. *)
Lemma _compute_target_raises (self : t) (name : string)
    (ghost pacman : Sprite) (blinky : option Sprite) (e : exn) :
  _compute_target self name ghost pacman blinky = Raise e
  <-> e = ZeroDivisionError /\ name = "clyde"%string /\ tile self = 0.
Proof.
  unfold _compute_target. rewrite scatter_targets_clyde.
  destruct (String.eqb name "blinky") eqn:E1.
  { apply String.eqb_eq in E1. subst. split; [discriminate|].
    intros (_ & [=] & _). }
  destruct (String.eqb name "pinky") eqn:E2.
  { apply String.eqb_eq in E2. subst. split; [discriminate|].
    intros (_ & [=] & _). }
  destruct (String.eqb name "inky") eqn:E3.
  { apply String.eqb_eq in E3. subst.
    split; [destruct blinky; discriminate|]. intros (_ & [=] & _). }
  destruct (String.eqb name "clyde") eqn:E4.
  - apply String.eqb_eq in E4. subst.
    destruct (tile self =? 0) eqn:Et.
    + apply Z.eqb_eq in Et. split; [intros [= <-]; easy|].
      now intros (-> & _ & _).
    + apply Z.eqb_neq in Et.
      split; [destruct (Qlt_bool _ _); discriminate|].
      intros (_ & _ & Hz). contradiction.
  - apply String.eqb_neq in E4. split; [discriminate|].
    intros (_ & Hn & _). contradiction.
Qed.

(** What a call with a free candidate does, spelled out. *)
Lemma set_ghost_direction_eq (self : t) (ghost_name : string)
    (ghost pacman : Sprite) (walls : Group) (gate : option Group)
    (other_ghosts : option (list Sprite)) (blinky : option Sprite)
    (target : Point) :
  _possible_moves self ghost walls gate <> [] ->
  _compute_target self (lower ghost_name) ghost pacman blinky = Ok target ->
  exists b,
    In b (_possible_moves self ghost walls gate)
    /\ set_ghost_direction self ghost_name ghost pacman walls gate
         other_ghosts blinky
       = Ok (set_rng self
               (advance (rng self)
                  (length (_possible_moves self ghost walls gate))),
             set_change ghost b).
Proof.
  intros Hne Htarget. unfold set_ghost_direction. rewrite Htarget.
  destruct (_possible_moves self ghost walls gate) as [|m ms] eqn:E;
    [contradiction|].
  set (w := default Weights_default (weights self !! lower ghost_name)).
  set (others := List.filter _ _).
  pose proof (_choose_best_move_rng self ghost (m :: ms) target w others)
    as Hrng.
  destruct (_choose_best_move_In self ghost (m :: ms) target w others)
    as (b & Hb & Hin); [discriminate|].
  destruct (_choose_best_move self ghost (m :: ms) target w others)
    as [res r]. cbn [fst snd] in Hb, Hrng. subst res r.
  exists b. split; [exact Hin|reflexivity].
Qed.

(** X7: a call that returns touches nothing but the ghost's [change_x] and
    [change_y] and the generator: the ghost keeps its identity and its rect
    (it is not moved), the engine keeps its step, tile and board size, and
    the generator has advanced by exactly one draw per free candidate (none
    when the ghost is boxed in). *)
Theorem set_ghost_direction_frame (self self' : t) (ghost_name : string)
    (ghost ghost' pacman : Sprite) (walls : Group) (gate : option Group)
    (other_ghosts : option (list Sprite)) (blinky : option Sprite) :
  set_ghost_direction self ghost_name ghost pacman walls gate other_ghosts
    blinky = Ok (self', ghost') ->
  sid ghost' = sid ghost /\ rect ghost' = rect ghost
  /\ step self' = step self /\ tile self' = tile self
  /\ board_size self' = board_size self
  /\ rng self'
     = advance (rng self) (length (_possible_moves self ghost walls gate)).
Proof.
  intros Hcall.
  destruct (_possible_moves self ghost walls gate) as [|m ms] eqn:E.
  - unfold set_ghost_direction in Hcall. rewrite E in Hcall.
    injection Hcall as <- <-. repeat split; reflexivity.
  - destruct (_compute_target self (lower ghost_name) ghost pacman blinky)
      as [target|e] eqn:Ht.
    + destruct (set_ghost_direction_eq self ghost_name ghost pacman walls
                  gate other_ghosts blinky target) as (b & _ & Heq);
        [rewrite E; discriminate|exact Ht|].
      rewrite Heq in Hcall. injection Hcall as <- <-.
      rewrite E. repeat split; reflexivity.
    + unfold set_ghost_direction in Hcall. rewrite E, Ht in Hcall.
      discriminate.
Qed.

(** X8: the only way [set_ghost_direction] raises is the herder's division
    by a zero tile: the call raises if and only if some candidate is free,
    the lower-cased role name is "clyde" and the tile is 0, and the exception
    is then [ZeroDivisionError]. *)
Theorem set_ghost_direction_raises (self : t) (ghost_name : string)
    (ghost pacman : Sprite) (walls : Group) (gate : option Group)
    (other_ghosts : option (list Sprite)) (blinky : option Sprite)
    (e : exn) :
  set_ghost_direction self ghost_name ghost pacman walls gate other_ghosts
    blinky = Raise e
  <-> e = ZeroDivisionError
      /\ _possible_moves self ghost walls gate <> []
      /\ lower ghost_name = "clyde"%string
      /\ tile self = 0.
Proof.
  destruct (_possible_moves self ghost walls gate) as [|m ms] eqn:E.
  - unfold set_ghost_direction. rewrite E.
    split; [discriminate|]. intros (_ & Hne & _). contradiction.
  - destruct (_compute_target self (lower ghost_name) ghost pacman blinky)
      as [target|e'] eqn:Ht.
    + destruct (set_ghost_direction_eq self ghost_name ghost pacman walls
                  gate other_ghosts blinky target) as (b & _ & Heq);
        [rewrite E; discriminate|exact Ht|].
      rewrite Heq. split; [discriminate|].
      intros (-> & _ & Hn & Hz).
      assert (Hr : _compute_target self (lower ghost_name) ghost pacman
                     blinky = Raise ZeroDivisionError)
        by (apply _compute_target_raises; easy).
      rewrite Hr in Ht. discriminate.
    + pose proof Ht as Ht'.
      apply _compute_target_raises in Ht' as (-> & Hn & Hz).
      unfold set_ghost_direction. rewrite E, Ht.
      split; [intros [= <-]; easy|]. now intros (-> & _).
Qed.

Lemma lower_ascii_idem (c : ascii) : lower_ascii (lower_ascii c) = lower_ascii c.
Proof. destruct c as [[] [] [] [] [] [] [] []]; reflexivity. Qed.

Lemma lower_idem (s : string) : lower (lower s) = lower s.
Proof.
  induction s as [|c s IH]; cbn; [reflexivity|].
  now rewrite lower_ascii_idem, IH.
Qed.

(** X9: the role name is case-insensitive: two names with the same
    lower-case form give the same result in every situation; in particular a
    name and its lower-case form do. *)
Theorem set_ghost_direction_case_insensitive (self : t) (name1 name2 : string)
    (ghost pacman : Sprite) (walls : Group) (gate : option Group)
    (other_ghosts : option (list Sprite)) (blinky : option Sprite) :
  (lower name1 = lower name2 ->
   set_ghost_direction self name1 ghost pacman walls gate other_ghosts blinky
   = set_ghost_direction self name2 ghost pacman walls gate other_ghosts
       blinky)
  /\ set_ghost_direction self (lower name1) ghost pacman walls gate
       other_ghosts blinky
     = set_ghost_direction self name1 ghost pacman walls gate other_ghosts
         blinky.
Proof.
  assert (Hsame : forall n1 n2, lower n1 = lower n2 ->
    set_ghost_direction self n1 ghost pacman walls gate other_ghosts blinky
    = set_ghost_direction self n2 ghost pacman walls gate other_ghosts
        blinky).
  { intros n1 n2 E. unfold set_ghost_direction. now rewrite E. }
  split; [apply Hsame|]. apply Hsame, lower_idem.
Qed.


End More.

(** Player centred at (100,100) heading right, 30-pixel tile: the ambush
    target is (220,100). *)
Lemma ambush_target_witness :
  change (Sample.sprite_at 0 85 85 0 0) = (0, 0)
  /\ @_compute_target Sample.lcg_random Sample.engine "pinky"
       Sample.ghost_open (Sample.sprite_at 0 85 85 30 0) None
     = Ok (220, 100)
  /\ @_compute_target Sample.lcg_random Sample.engine "pinky"
       Sample.ghost_open (Sample.sprite_at 0 85 85 0 0) None
     = Ok (100, 100).
Proof.
  split; [reflexivity|]. split.
  - destruct (@ambush_target Sample.lcg_random Sample.engine
                Sample.ghost_open (Sample.sprite_at 0 85 85 30 0) None)
      as (Ht & _).
    rewrite Ht. reflexivity.
  - destruct (@ambush_target Sample.lcg_random Sample.engine
                Sample.ghost_open (Sample.sprite_at 0 85 85 0 0) None)
      as (Ht & Hidle & _).
    rewrite Ht, Hidle; reflexivity.
Defined.

Lemma direct_chase_target_witness :
  "converge"%string <> "pinky"%string
  /\ "converge"%string <> "inky"%string
  /\ "converge"%string <> "clyde"%string
  /\ @_compute_target Sample.lcg_random Sample.engine "converge"
       Sample.ghost_open Sample.pacman None
     = Ok (Rect.center (rect Sample.pacman)).
Proof.
  assert (H1 : "converge"%string <> "pinky"%string) by discriminate.
  assert (H2 : "converge"%string <> "inky"%string) by discriminate.
  assert (H3 : "converge"%string <> "clyde"%string) by discriminate.
  split; [exact H1|]. split; [exact H2|]. split; [exact H3|].
  exact (@direct_chase_target Sample.lcg_random Sample.engine "converge"
           Sample.ghost_open Sample.pacman None H1 H2 H3).
Defined.

Lemma _possible_moves_exact_witness :
  @step Sample.lcg_random Sample.engine <> 0
  /\ List.NoDup
       (@_possible_moves Sample.rect_collision Sample.lcg_random
          Sample.engine Sample.ghost_open Sample.dead_end None).
Proof.
  assert (Hs : @step Sample.lcg_random Sample.engine <> 0) by discriminate.
  split; [exact Hs|].
  destruct (@_possible_moves_exact Sample.rect_collision Sample.lcg_random
              Sample.engine Sample.ghost_open Sample.dead_end None)
    as (_ & _ & _ & Hnd).
  exact (Hnd Hs).
Defined.

(** The dead end: one free candidate, one draw. *)
Lemma set_ghost_direction_frame_witness :
  @set_ghost_direction Sample.rect_collision Sample.lcg_random
    Sample.double_arith Sample.engine "Inky" Sample.ghost_open Sample.pacman
    Sample.dead_end None None None
  = Ok (@set_rng Sample.lcg_random Sample.engine
          (@advance Sample.lcg_random
             (@rng Sample.lcg_random Sample.engine) 1),
        set_change Sample.ghost_open Sample.back)
  /\ @rng Sample.lcg_random
       (@set_rng Sample.lcg_random Sample.engine
          (@advance Sample.lcg_random
             (@rng Sample.lcg_random Sample.engine) 1))
     = @advance Sample.lcg_random (@rng Sample.lcg_random Sample.engine)
         (length
            (@_possible_moves Sample.rect_collision Sample.lcg_random
               Sample.engine Sample.ghost_open Sample.dead_end None)).
Proof.
  assert (E : @set_ghost_direction Sample.rect_collision Sample.lcg_random
                Sample.double_arith Sample.engine "Inky" Sample.ghost_open
                Sample.pacman Sample.dead_end None None None
              = Ok (@set_rng Sample.lcg_random Sample.engine
                      (@advance Sample.lcg_random
                         (@rng Sample.lcg_random Sample.engine) 1),
                    set_change Sample.ghost_open Sample.back))
    by reflexivity.
  split; [exact E|].
  apply (@set_ghost_direction_frame Sample.rect_collision Sample.lcg_random
           Sample.double_arith _ _ _ _ _ _ _ _ _ _ E).
Defined.

Lemma set_ghost_direction_case_insensitive_witness :
  lower "CLYDE" = lower "clyde"
  /\ @set_ghost_direction Sample.rect_collision Sample.lcg_random
       Sample.double_arith Sample.engine "CLYDE" Sample.ghost_open
       Sample.pacman Sample.no_walls None None None
     = @set_ghost_direction Sample.rect_collision Sample.lcg_random
         Sample.double_arith Sample.engine "clyde" Sample.ghost_open
         Sample.pacman Sample.no_walls None None None.
Proof.
  assert (Hl : lower "CLYDE" = lower "clyde") by reflexivity.
  split; [exact Hl|].
  destruct (@set_ghost_direction_case_insensitive Sample.rect_collision
              Sample.lcg_random Sample.double_arith Sample.engine
              "CLYDE" "clyde" Sample.ghost_open Sample.pacman
              Sample.no_walls None None None)
    as (Hsame & _).
  exact (Hsame Hl).
Defined.


End GhostAIMore.

(** * Further properties of the meta-rule controller *)

Module MetaRulesMore.
Import MetaRules MetaRulesProofs.

Section MoreRules.

Context `{PyFloat}.

(** *** Rotations compose *)

Lemma rotate_roles_add (s t : Z) (a b c d : string) :
  rotate_roles t (rotate_roles s [a; b; c; d])
  = rotate_roles (s + t) [a; b; c; d].
Proof.
  rewrite (rotate_roles_mod (s + t)), Z.add_mod by discriminate.
  rewrite (rotate_roles_mod s).
  destruct (step_mod_four s) as [Es|[Es|[Es|Es]]]; rewrite Es;
    match goal with
    | |- rotate_roles t ?l = _ =>
        let l' := eval cbv in l in change l with l'
    end;
    rewrite (rotate_roles_mod t);
    destruct (step_mod_four t) as [Et|[Et|[Et|Et]]]; rewrite Et;
    reflexivity.
Qed.

Lemma rotate_roles_zero (a b c d : string) :
  rotate_roles 0 [a; b; c; d] = [a; b; c; d].
Proof. reflexivity. Qed.

(** X11: role swaps compose.  On a total mapping, [n] successive calls of
    [_swap_roles] all succeed and leave the roles, listed in identity order,
    rotated by [n] times the configured step; in particular four successive
    swaps give every identity its original role back, whatever the step. *)
Theorem swaps_rotate (n : nat) (self : t) (roles : list string) :
  roles_of (role_map self) ghost_ids = Some roles ->
  (exists self',
     swaps n self = Ok self'
     /\ roles_of (role_map self') ghost_ids
        = Some (rotate_roles (Z.of_nat n * rotation_step (cfg self)) roles))
  /\ (exists self',
        swaps 4 self = Ok self'
        /\ roles_of (role_map self') ghost_ids = Some roles).
Proof.
  assert (Hn : forall n self roles,
    roles_of (role_map self) ghost_ids = Some roles ->
    exists self',
      swaps n self = Ok self'
      /\ roles_of (role_map self') ghost_ids
         = Some (rotate_roles (Z.of_nat n * rotation_step (cfg self)) roles)).
  { clear. induction n as [|n IH]; intros self roles Hr.
    - exists self. split; [reflexivity|].
      destruct (roles_of_four _ _ Hr) as (a & b & c & d & ->). exact Hr.
    - destruct (_swap_roles_rotates self roles Hr) as (s1 & Hs1 & Hr1).
      pose proof (_swap_roles_frame _ _ Hs1) as (_ & Hcfg & _).
      destruct (IH s1 _ Hr1) as (s2 & Hs2 & Hr2).
      exists s2. cbn [swaps]. rewrite Hs1. split; [exact Hs2|].
      rewrite Hr2, Hcfg.
      destruct (roles_of_four _ _ Hr) as (a & b & c & d & ->).
      rewrite rotate_roles_add. do 2 f_equal. lia. }
  intros Hr. split; [now apply Hn|].
  destruct (Hn 4%nat self roles Hr) as (s4 & Hs4 & Hr4).
  exists s4. split; [exact Hs4|]. rewrite Hr4.
  destruct (roles_of_four _ _ Hr) as (a & b & c & d & ->).
  rewrite rotate_roles_mod.
  replace ((Z.of_nat 4 * rotation_step (cfg self)) mod 4) with 0
    by (symmetry; rewrite Z.mul_comm; apply Z_mod_mult).
  reflexivity.
Qed.

(** The keys of a dict built over the four identities. *)
Lemma dict_of_four_keys (a b c d gid : string) :
  is_Some (dict_of (combine ghost_ids [a; b; c; d]) !! gid)
  <-> In gid ghost_ids.
Proof.
  unfold dict_of, ghost_ids. cbn [combine fold_left fst snd In]. split.
  - intros Hs.
    destruct (decide (gid = "clyde"%string)) as [->|N1]; [tauto|].
    rewrite lookup_insert_ne in Hs by done.
    destruct (decide (gid = "inky"%string)) as [->|N2]; [tauto|].
    rewrite lookup_insert_ne in Hs by done.
    destruct (decide (gid = "pinky"%string)) as [->|N3]; [tauto|].
    rewrite lookup_insert_ne in Hs by done.
    destruct (decide (gid = "blinky"%string)) as [->|N4]; [tauto|].
    rewrite lookup_insert_ne, lookup_empty in Hs by done.
    destruct Hs as [x Hx]. discriminate.
  - intros [<-|[<-|[<-|[<-|[]]]]]; eexists; reflexivity.
Qed.

Lemma _swap_roles_zero (self : t) :
  rotation_step (cfg self) mod 4 = 0 -> _swap_roles self = Ok self.
Proof.
  intros E. unfold _swap_roles.
  change (Z.of_nat (length ghost_ids)) with 4. now rewrite E.
Qed.

Lemma _swap_roles_keys (self self' : t) (gid : string) :
  rotation_step (cfg self) mod 4 <> 0 -> _swap_roles self = Ok self' ->
  is_Some (role_map self' !! gid) <-> In gid ghost_ids.
Proof.
  intros E. unfold _swap_roles.
  change (Z.of_nat (length ghost_ids)) with 4.
  destruct (rotation_step (cfg self) mod 4 =? 0) eqn:Ez; zbool;
    [contradiction|].
  destruct (roles_of (role_map self) ghost_ids) as [roles|] eqn:Hr;
    [|discriminate].
  intros [= <-]. cbn [role_map set_role_map].
  destruct (roles_of_four _ _ Hr) as (a & b & c & d & ->).
  destruct (step_mod_four (rotation_step (cfg self)))
    as [Es|[Es|[Es|Es]]]; rewrite Es; try contradiction;
    apply dict_of_four_keys.
Qed.

(** X12: [_swap_roles] and incomplete mappings.  The call raises, and then
    [KeyError], exactly when the step is not a multiple of four and some
    identity has no role; with a step that is a multiple of four it returns
    the controller untouched even then.  After a successful rotation with
    such a step the mapping has exactly the four identities as keys: any
    other key the old mapping had is gone. *)
Theorem _swap_roles_errors (self : t) :
  (forall e, _swap_roles self = Raise e
             <-> e = KeyError
                 /\ rotation_step (cfg self) mod 4 <> 0
                 /\ ~ role_map_total (role_map self))
  /\ (rotation_step (cfg self) mod 4 = 0 -> _swap_roles self = Ok self)
  /\ (forall self',
        rotation_step (cfg self) mod 4 <> 0 ->
        _swap_roles self = Ok self' ->
        forall gid, is_Some (role_map self' !! gid) <-> In gid ghost_ids).
Proof.
  unfold _swap_roles. change (Z.of_nat (length ghost_ids)) with 4.
  destruct (rotation_step (cfg self) mod 4 =? 0) eqn:E; zbool.
  - split; [|split].
    + intros e. split; [discriminate|]. intros (_ & Hn & _). contradiction.
    + reflexivity.
    + intros self' Hn. contradiction.
  - destruct (roles_of (role_map self) ghost_ids) as [roles|] eqn:Hr.
    + split; [|split].
      * intros e. split; [discriminate|]. intros (_ & _ & Hn).
        exfalso. apply Hn, role_map_total_roles. eauto.
      * intros Hz. contradiction.
      * intros self' _ [= <-] gid. cbn [role_map set_role_map].
        destruct (roles_of_four _ _ Hr) as (a & b & c & d & ->).
        destruct (step_mod_four (rotation_step (cfg self)))
          as [Es|[Es|[Es|Es]]]; rewrite Es; try contradiction;
          apply dict_of_four_keys.
    + split; [|split].
      * intros e. split.
        -- intros [= <-]. repeat split; [exact E|].
           intros [roles Hr']%role_map_total_roles. congruence.
        -- now intros (-> & _).
      * intros Hz. contradiction.
      * intros self' _ [=].
Qed.

(** *** The mapping stays a bijection *)

Lemma NoDup_four {A} (a b c d : A) :
  List.NoDup [a; b; c; d]
  <-> a <> b /\ a <> c /\ a <> d /\ b <> c /\ b <> d /\ c <> d.
Proof.
  split.
  - intros Hnd.
    inversion_clear Hnd as [|? ? Ha Hnd1].
    inversion_clear Hnd1 as [|? ? Hb Hnd2].
    inversion_clear Hnd2 as [|? ? Hc _].
    cbn [In] in Ha, Hb, Hc. intuition congruence.
  - intros (Hab & Hac & Had & Hbc & Hbd & Hcd).
    repeat match goal with
    | |- List.NoDup [] => constructor
    | |- List.NoDup (_ :: _) => constructor
    | |- ~ In _ _ => cbn [In]; intuition congruence
    end.
Qed.

Lemma rotate_roles_NoDup (s : Z) (a b c d : string) :
  List.NoDup [a; b; c; d] -> List.NoDup (rotate_roles s [a; b; c; d]).
Proof.
  intros Hnd%NoDup_four. rewrite rotate_roles_mod.
  destruct (step_mod_four s) as [E|[E|[E|E]]]; rewrite E;
    match goal with
    | |- List.NoDup ?l => let l' := eval cbv in l in change l with l'
    end; apply NoDup_four; intuition congruence.
Qed.

Lemma _swap_roles_bijective (self self' : t) :
  role_map_bijective (role_map self) -> _swap_roles self = Ok self' ->
  role_map_bijective (role_map self').
Proof.
  intros [Hdom (roles & Hr & Hnd)] Hswap.
  destruct (_swap_roles_rotates self roles Hr) as (s1 & Hs1 & Hr1).
  rewrite Hswap in Hs1. injection Hs1 as <-.
  destruct (roles_of_four _ _ Hr) as (a & b & c & d & ->).
  split.
  - destruct (Z.eq_dec (rotation_step (cfg self) mod 4) 0) as [E|E].
    + rewrite (_swap_roles_zero self E) in Hswap.
      injection Hswap as <-. exact Hdom.
    + intros gid. exact (_swap_roles_keys self self' gid E Hswap).
  - eexists. split; [exact Hr1|]. now apply rotate_roles_NoDup.
Qed.

(** [update] changes the mapping through [_swap_roles] or not at all. *)
Lemma update_role_map (self : t) (pacman : Sprite)
    (ghosts : gmap string Sprite) :
  role_map (update self pacman ghosts).1 = role_map self
  \/ exists s s',
       role_map s = role_map self /\ _swap_roles s = Ok s'
       /\ role_map (update self pacman ghosts).1 = role_map s'.
Proof.
  unfold update. set (pac := Rect.center (rect pacman)).
  pose proof (_update_converge_rule_frame self pac ghosts)
    as (_ & _ & _ & Frm & _).
  destruct (_update_converge_rule self pac ghosts) as [self1 [m|]];
    cbn [fst] in Frm; [left; exact Frm|].
  unfold _update_role_swap_rule.
  destruct (_min_dist_to_pacman_tiles self1 pac ghosts) as [d|e];
    [|left; exact Frm].
  destruct self1 as [tl cf ccf rm e c h cd out]; cbn in Frm |- *. subst rm.
  repeat (case_if; cbn); try (left; reflexivity);
    match goal with
    | |- context [_swap_roles ?s] =>
        destruct (_swap_roles s) as [s'|err] eqn:E; cbn;
        [right; exists s, s';
         split; [reflexivity|split; [exact E|reflexivity]]
        |left; reflexivity]
    end.
Qed.

Lemma update_bijective (self : t) (pacman : Sprite)
    (ghosts : gmap string Sprite) :
  role_map_bijective (role_map self) ->
  role_map_bijective (role_map (update self pacman ghosts).1).
Proof.
  intros Hb.
  destruct (update_role_map self pacman ghosts)
    as [->|(s & s' & Hrm & Hswap & ->)]; [exact Hb|].
  apply (_swap_roles_bijective s s'); [now rewrite Hrm|exact Hswap].
Qed.

(** What [update] hands back when it returns. *)
Lemma update_returns (self : t) (pacman : Sprite)
    (ghosts : gmap string Sprite) (m : gmap string string) :
  (update self pacman ghosts).2 = Ok m ->
  m = all_converge \/ m = role_map (update self pacman ghosts).1.
Proof.
  unfold update. set (pac := Rect.center (rect pacman)).
  assert (Hc : forall m', (_update_converge_rule self pac ghosts).2 = Some m'
                          -> m' = all_converge).
  { unfold _update_converge_rule. intros m'.
    repeat (case_if; cbn); intros [= <-]; reflexivity. }
  destruct (_update_converge_rule self pac ghosts) as [self1 [m'|]];
    cbn [snd] in Hc.
  - cbn. intros [= <-]. left. now apply Hc.
  - destruct (_update_role_swap_rule self1 pac ghosts) as [self2 [u|e]]; cbn;
      [intros [= <-]; now right|discriminate].
Qed.

(** X13: the identity-to-role mapping stays a bijection.  It starts as the
    identity on the four identities; every [update] call, returning or
    raising, leaves a mapping whose keys are exactly the four identities and
    whose four roles are pairwise different; so it is after any sequence of
    calls from the initial state.  A returned mapping is either the
    all-converge override or this mapping. *)
Theorem role_map_stays_bijective (tile : Z) (config : option RoleSwapConfig)
    (converge_config : option ConvergeConfig) :
  role_map_bijective (role_map (__init__ tile config converge_config))
  /\ roles_of (role_map (__init__ tile config converge_config)) ghost_ids
     = Some ghost_ids
  /\ (forall self pacman ghosts,
        role_map_bijective (role_map self) ->
        role_map_bijective (role_map (update self pacman ghosts).1)
        /\ forall m, (update self pacman ghosts).2 = Ok m ->
                     m = all_converge
                     \/ m = role_map (update self pacman ghosts).1)
  /\ (forall ticks,
        role_map_bijective
          (role_map (run (__init__ tile config converge_config) ticks).1)).
Proof.
  assert (Hinit : role_map_bijective
                    (role_map (__init__ tile config converge_config))).
  { split.
    - intros gid. apply (dict_of_four_keys "blinky" "pinky" "inky" "clyde").
    - exists ghost_ids. split; [reflexivity|].
      apply NoDup_four. repeat split; discriminate. }
  split; [exact Hinit|]. split; [reflexivity|]. split.
  - intros self pacman ghosts Hb.
    split; [now apply update_bijective|apply update_returns].
  - intros ticks. revert Hinit.
    generalize (__init__ tile config converge_config).
    induction ticks as [|[pacman ghosts] rest IH]; intros self Hb.
    + exact Hb.
    + rewrite run_cons. cbn [fst]. apply IH. now apply update_bijective.
Qed.

(** *** The minimum distance *)









(** *** When [update] raises, and when it cannot rotate *)


(** The role-swap rule when its trigger test fails. *)
Lemma _update_role_swap_rule_quiet (self : t) (pac : Point)
    (ghosts : gmap string Sprite) (min_dist : pyfloat) :
  _min_dist_to_pacman_tiles self pac ghosts = Ok min_dist ->
  let escape :=
    if fge min_dist (Finite (safe_distance_tiles (cfg self)))
    then _escape_ticks self + 1 else 0 in
  let cooldown :=
    if _role_swap_cooldown self >? 0 then _role_swap_cooldown self - 1
    else _role_swap_cooldown self in
  (escape >=? escape_ticks_threshold (cfg self)) && (cooldown =? 0) = false ->
  _update_role_swap_rule self pac ghosts
  = (set_role_swap_cooldown (set_escape_ticks self escape) cooldown, Ok tt).
Proof.
  intros Hmin escape cooldown. unfold _update_role_swap_rule.
  rewrite Hmin. clear Hmin. subst escape cooldown.
  destruct self as [tl cf ccf rm e c h cd out];
    cbn [cfg _escape_ticks _role_swap_cooldown].
  destruct (fge min_dist _); cbn; destruct (c >? 0); cbn;
    intros ->; reflexivity.
Qed.





(** One tick with the swap cooldown at two or more: no rotation, and the
    cooldown drops by at most one. *)
Lemma update_cooling (self : t) (pacman : Sprite)
    (ghosts : gmap string Sprite) :
  2 <= _role_swap_cooldown self ->
  role_map (update self pacman ghosts).1 = role_map self
  /\ _role_swap_cooldown self - 1
     <= _role_swap_cooldown (update self pacman ghosts).1.
Proof.
  intros Hc. unfold update. set (pac := Rect.center (rect pacman)).
  pose proof (_update_converge_rule_frame self pac ghosts)
    as (_ & _ & _ & Frm & Fsw).
  destruct (_update_converge_rule self pac ghosts) as [self1 [m|]];
    cbn [fst] in Frm, Fsw.
  - cbn. split; [exact Frm|lia].
  - destruct (_min_dist_to_pacman_tiles self1 pac ghosts) as [d|e] eqn:Hmin.
    + pose proof (_update_role_swap_rule_quiet self1 pac ghosts d Hmin)
        as Hquiet.
      cbv zeta in Hquiet. rewrite Fsw in Hquiet.
      assert (Hgt : (_role_swap_cooldown self >? 0) = true)
        by (apply Z.gtb_lt; lia).
      assert (Hnz : (_role_swap_cooldown self - 1 =? 0) = false)
        by (apply Z.eqb_neq; lia).
      rewrite Hgt, Hnz, andb_false_r in Hquiet. specialize (Hquiet eq_refl).
      rewrite Hquiet. cbn. split; [exact Frm|lia].
    + unfold _update_role_swap_rule. rewrite Hmin. cbn.
      split; [exact Frm|lia].
Qed.

(** X17: the swap cooldown blocks rotation.  From a state whose swap
    cooldown is [c], the mapping is the same after each of the next [c - 1]
    [update] calls, whatever the positions passed and whether or not a call
    raises. *)
Theorem no_rotation_while_cooling
    (ticks : list (Sprite * gmap string Sprite)) (self : t) :
  Z.of_nat (length ticks) < _role_swap_cooldown self ->
  role_map (run self ticks).1 = role_map self.
Proof.
  revert self; induction ticks as [|[pacman ghosts] rest IH];
    intros self Hlen; [reflexivity|].
  cbn [length] in Hlen. rewrite run_cons. cbn [fst].
  destruct (update_cooling self pacman ghosts) as [Hrm Hcd]; [lia|].
  rewrite IH by lia. exact Hrm.
Qed.

(** *** Hold and cooldown over several ticks *)

Lemma update_hold (self : t) (pacman : Sprite)
    (ghosts : gmap string Sprite) :
  0 < _converge_ticks self ->
  (update self pacman ghosts).2 = Ok all_converge
  /\ _converge_ticks (update self pacman ghosts).1 = _converge_ticks self - 1
  /\ _escape_ticks (update self pacman ghosts).1 = 0
  /\ (_converge_ticks self = 1 ->
      _converge_cooldown (update self pacman ghosts).1
      = cooldown_ticks (converge_cfg self))
  /\ role_map (update self pacman ghosts).1 = role_map self
  /\ converge_cfg (update self pacman ghosts).1 = converge_cfg self.
Proof.
  intros Hh. set (pac := Rect.center (rect pacman)).
  destruct (_update_converge_rule_hold self pac ghosts Hh)
    as (self' & Hrule & Ht & He & Hc & _).
  pose proof (_update_converge_rule_frame self pac ghosts) as F.
  unfold update. fold pac. rewrite Hrule in F |- *. cbn in F |- *.
  split; [reflexivity|]. split; [exact Ht|]. split; [exact He|].
  split; [|split; apply F].
  intros E. rewrite Hc, E. reflexivity.
Qed.

(** X18: a converge hold runs its course.  From a state whose hold counter
    is [h], each of the next [n <= h] [update] calls returns the all-converge
    mapping whatever positions it is given; afterwards the hold counter is
    [h - n], the mapping is unchanged, the escape-tick counter is zero, and
    if [n = h] the converge cooldown has just been set to its configured
    length. *)
Theorem hold_runs_its_course
    (ticks : list (Sprite * gmap string Sprite)) (self : t) :
  Z.of_nat (length ticks) <= _converge_ticks self ->
  Forall (fun r => r = Ok all_converge) (run self ticks).2
  /\ _converge_ticks (run self ticks).1
     = _converge_ticks self - Z.of_nat (length ticks)
  /\ role_map (run self ticks).1 = role_map self
  /\ converge_cfg (run self ticks).1 = converge_cfg self
  /\ (ticks <> [] -> _escape_ticks (run self ticks).1 = 0)
  /\ (ticks <> [] -> Z.of_nat (length ticks) = _converge_ticks self ->
      _converge_cooldown (run self ticks).1
      = cooldown_ticks (converge_cfg self)).
Proof.
  revert self; induction ticks as [|[pacman ghosts] rest IH];
    intros self Hlen.
  - cbn. repeat apply conj; try reflexivity; try constructor; try lia;
      intros Hne; contradiction.
  - cbn [length] in Hlen.
    destruct (update_hold self pacman ghosts)
      as (Hres & Ht & He & Hc & Hrm & Hcc); [lia|].
    destruct (IH (update self pacman ghosts).1)
      as (Hall & Ht' & Hrm' & Hcc' & He' & Hc'); [lia|].
    rewrite run_cons. cbn [fst snd length].
    split; [constructor; assumption|].
    split; [lia|]. split; [congruence|]. split; [congruence|].
    destruct rest as [|tick rest'].
    + cbn. split; [intros _; exact He|].
      intros _ E. apply Hc. cbn in E. lia.
    + split; [intros _; apply He'; discriminate|].
      intros _ E. rewrite Hc', Hcc; [reflexivity|discriminate|lia].
Qed.

Lemma update_converge_cooling (self : t) (pacman : Sprite)
    (ghosts : gmap string Sprite) :
  _converge_ticks self <= 0 -> 2 <= _converge_cooldown self ->
  _converge_ticks (update self pacman ghosts).1 = _converge_ticks self
  /\ _converge_cooldown (update self pacman ghosts).1
     = _converge_cooldown self - 1
  /\ (forall m, (update self pacman ghosts).2 = Ok m ->
                m = role_map (update self pacman ghosts).1).
Proof.
  intros Hh Hc. set (pac := Rect.center (rect pacman)).
  assert (Hcd : cooldown_after_decrement self = _converge_cooldown self - 1).
  { unfold cooldown_after_decrement.
    destruct (_converge_cooldown self >? 0) eqn:G; zbool; lia. }
  pose proof (_update_converge_rule_cooling self pac ghosts Hh) as Hrule.
  rewrite Hcd in Hrule. specialize (Hrule ltac:(lia)).
  unfold update. fold pac. rewrite Hrule.
  pose proof (_update_role_swap_rule_frame
                (set_converge_cooldown self (_converge_cooldown self - 1))
                pac ghosts) as (_ & _ & _ & Ft & Fc).
  destruct (_update_role_swap_rule _ pac ghosts) as [self2 [u|e]];
    cbn [fst snd] in *.
  - split; [exact Ft|]. split; [exact Fc|]. intros m [= <-]. reflexivity.
  - split; [exact Ft|]. split; [exact Fc|]. intros m [=].
Qed.

Lemma run_converge_cooling
    (ticks : list (Sprite * gmap string Sprite)) (self : t) :
  _converge_ticks self <= 0 ->
  Z.of_nat (length ticks) < _converge_cooldown self ->
  _converge_ticks (run self ticks).1 = _converge_ticks self
  /\ _converge_cooldown (run self ticks).1
     = _converge_cooldown self - Z.of_nat (length ticks).
Proof.
  revert self; induction ticks as [|[pacman ghosts] rest IH];
    intros self Hh Hlen.
  - cbn. split; [reflexivity|lia].
  - cbn [length] in Hlen.
    destruct (update_converge_cooling self pacman ghosts Hh)
      as (Ht & Hc & _); [lia|].
    destruct (IH (update self pacman ghosts).1) as (Ht' & Hc'); [lia|lia|].
    rewrite run_cons. cbn [fst length]. split; [congruence|lia].
Qed.

(** X19: the converge cooldown keeps the rule quiet.  From a state with the
    hold counter off and a converge cooldown of [c], during the next [c - 1]
    [update] calls the converge rule never overrides, however the ghosts
    stand: on each of these calls it returns no mapping, and afterwards the
    hold counter is as it was and the cooldown has gone down by one per
    call. *)
Theorem converge_cooldown_quiet
    (ticks : list (Sprite * gmap string Sprite)) (self : t) :
  _converge_ticks self <= 0 ->
  Z.of_nat (length ticks) < _converge_cooldown self ->
  _converge_ticks (run self ticks).1 = _converge_ticks self
  /\ _converge_cooldown (run self ticks).1
     = _converge_cooldown self - Z.of_nat (length ticks)
  /\ (forall k pacman ghosts,
        ticks !! k = Some (pacman, ghosts) ->
        (_update_converge_rule (run self (take k ticks)).1
           (Rect.center (rect pacman)) ghosts).2 = None).
Proof.
  intros Hh Hlen.
  destruct (run_converge_cooling ticks self Hh Hlen) as (Ht & Hc).
  split; [exact Ht|]. split; [exact Hc|].
  intros k pacman ghosts Hk.
  pose proof (lookup_lt_Some _ _ _ Hk) as Hklen.
  assert (Hlenk : length (take k ticks) = k)
    by (rewrite length_take; lia).
  destruct (run_converge_cooling (take k ticks) self Hh) as (Htk & Hck);
    [lia|].
  rewrite Hlenk in Hck.
  rewrite _update_converge_rule_cooling; [reflexivity|lia|].
  unfold cooldown_after_decrement. rewrite Hck.
  destruct (_converge_cooldown self - Z.of_nat k >? 0) eqn:G; zbool; lia.
Qed.

(** *** [role_to_ghost] *)

Lemma bijective_roles (m : gmap string string) :
  role_map_bijective m ->
  exists a b c d,
    m !! "blinky" = Some a /\ m !! "pinky" = Some b
    /\ m !! "inky" = Some c /\ m !! "clyde" = Some d
    /\ a <> b /\ a <> c /\ a <> d /\ b <> c /\ b <> d /\ c <> d.
Proof.
  intros [_ (roles & Hr & Hnd)]. unfold ghost_ids in Hr. cbn [roles_of] in Hr.
  destruct (m !! "blinky") as [a|]; [|discriminate].
  destruct (m !! "pinky") as [b|]; [|discriminate].
  destruct (m !! "inky") as [c|]; [|discriminate].
  destruct (m !! "clyde") as [d|]; [|discriminate].
  injection Hr as <-. apply NoDup_four in Hnd.
  exists a, b, c, d. tauto.
Qed.

(** X20: [role_to_ghost] inverts the mapping.  When the mapping is a
    bijection on the four identities, the sprite filed under a role is the
    sprite of the identity holding that role: looking up the role of an
    identity gives that identity's sprite (nothing if the identity is not
    tracked), every entry comes from a tracked identity holding that role,
    and an empty position map gives an empty result. *)
Theorem role_to_ghost_inverts (self : t) (ghosts : gmap string Sprite) :
  role_map_bijective (role_map self) ->
  (forall gid role,
     role_map self !! gid = Some role ->
     role_to_ghost self ghosts !! role = ghosts !! gid)
  /\ (forall role g,
        role_to_ghost self ghosts !! role = Some g ->
        exists gid, In gid ghost_ids /\ role_map self !! gid = Some role
                    /\ ghosts !! gid = Some g)
  /\ role_to_ghost self ∅ = ∅.
Proof.
  intros Hb.
  destruct (bijective_roles _ Hb)
    as (a & b & c & d & Ha & Hb' & Hc & Hd & Hab & Hac & Had & Hbc & Hbd
        & Hcd).
  destruct Hb as [Hdom _].
  assert (Hinv : forall gid role,
    role_map self !! gid = Some role ->
    role_to_ghost self ghosts !! role = ghosts !! gid).
  { intros gid role Hrole.
    assert (Hin : In gid ghost_ids) by (apply Hdom; eauto).
    unfold role_to_ghost, ghost_ids in *. cbn [fold_left In] in *.
    rewrite Ha, Hb', Hc, Hd.
    destruct Hin as [<-|[<-|[<-|[<-|[]]]]];
      rewrite Hrole in *; simplify_eq;
      destruct (ghosts !! "blinky"), (ghosts !! "pinky"),
        (ghosts !! "inky"), (ghosts !! "clyde");
      simplify_map_eq; reflexivity. }
  split; [exact Hinv|]. split.
  - intros role g Hg.
    destruct (decide (role = a)) as [->|Na];
      [exists "blinky"%string; rewrite (Hinv _ _ Ha) in Hg;
       repeat split; [cbn; tauto|assumption..]|].
    destruct (decide (role = b)) as [->|Nb];
      [exists "pinky"%string; rewrite (Hinv _ _ Hb') in Hg;
       repeat split; [cbn; tauto|assumption..]|].
    destruct (decide (role = c)) as [->|Nc];
      [exists "inky"%string; rewrite (Hinv _ _ Hc) in Hg;
       repeat split; [cbn; tauto|assumption..]|].
    destruct (decide (role = d)) as [->|Nd];
      [exists "clyde"%string; rewrite (Hinv _ _ Hd) in Hg;
       repeat split; [cbn; tauto|assumption..]|].
    exfalso. unfold role_to_ghost, ghost_ids in Hg. cbn [fold_left] in Hg.
    rewrite Ha, Hb', Hc, Hd in Hg.
    destruct (ghosts !! "blinky"), (ghosts !! "pinky"),
      (ghosts !! "inky"), (ghosts !! "clyde");
      simplify_map_eq.
  - unfold role_to_ghost, ghost_ids. cbn [fold_left].
    rewrite Ha, Hb', Hc, Hd, !lookup_empty. reflexivity.
Qed.

(** *** Sectors *)

Lemma sector_of_four (dx dy : Z) :
  sector_of dx dy ∈ ({["NE"; "NW"; "SW"; "SE"]} : gset string)%string.
Proof. unfold sector_of. repeat case_if; set_solver. Qed.

Lemma sector_step_size (pac : Point) (ghosts : gmap string Sprite)
    (radius_px : Float) (sectors : gset string) (gid : string) :
  (size (sector_step pac ghosts radius_px sectors gid)
   <= size sectors + (if bool_decide (is_Some (ghosts !! gid)) then 1 else 0))%nat.
Proof.
  unfold sector_step. destruct (ghosts !! gid) as [g|] eqn:Hg.
  - rewrite bool_decide_eq_true_2 by eauto.
    destruct (Rect.center (rect g)) as [gx gy].
    assert (Hu : forall s : string,
      (size ({[s]} ∪ sectors) <= size sectors + 1)%nat).
    { intros s. rewrite size_union_alt, size_singleton.
      assert (Hsub : sectors ∖ {[s]} ⊆ sectors)
        by (apply subseteq_difference_l; reflexivity).
      apply subseteq_size in Hsub. lia. }
    repeat case_if; try apply Hu. lia.
  - rewrite bool_decide_eq_false_2 by (intros [? ?]; discriminate). lia.
Qed.

Lemma sector_fold_size (pac : Point) (ghosts : gmap string Sprite)
    (radius_px : Float) (ids : list string) (sectors : gset string) :
  (size (fold_left (sector_step pac ghosts radius_px) ids sectors)
   <= size sectors
      + length (List.filter
                  (fun gid => bool_decide (is_Some (ghosts !! gid))) ids))%nat.
Proof.
  revert sectors; induction ids as [|gid ids IH]; intros sectors;
    cbn [fold_left List.filter length]; [lia|].
  etransitivity; [apply IH|].
  pose proof (sector_step_size pac ghosts radius_px sectors gid) as Hs.
  destruct (bool_decide (is_Some (ghosts !! gid))); cbn [length]; lia.
Qed.

(** X21: how many sectors can be occupied.  The sectors counted by the
    converge rule are among NE, NW, SW and SE, so there are at most four, and
    at most as many as there are tracked identities.  Hence, with the hold
    counter off, the rule cannot override on a tick where fewer identities
    are tracked than sectors are required, nor at all if more than four
    sectors are required. *)
Theorem sectors_bounded (self : t) (pac : Point)
    (ghosts : gmap string Sprite) :
  occupied_sectors self pac ghosts
    ⊆ ({["NE"; "NW"; "SW"; "SE"]} : gset string)%string
  /\ (size (occupied_sectors self pac ghosts) <= 4)%nat
  /\ (size (occupied_sectors self pac ghosts) <= length (tracked ghosts))%nat
  /\ (_converge_ticks self <= 0 ->
      4 < required_sectors (converge_cfg self)
      \/ Z.of_nat (length (tracked ghosts))
         < required_sectors (converge_cfg self) ->
      (_update_converge_rule self pac ghosts).2 = None).
Proof.
  assert (Hsub : occupied_sectors self pac ghosts
                   ⊆ ({["NE"; "NW"; "SW"; "SE"]} : gset string)%string).
  { intros s (gid & g & _ & _ & _ & <-)%occupied_sectors_elem.
    apply sector_of_four. }
  assert (H4 : (size (occupied_sectors self pac ghosts) <= 4)%nat).
  { apply subseteq_size in Hsub.
    etransitivity; [exact Hsub|]. vm_compute. lia. }
  assert (Htr : (size (occupied_sectors self pac ghosts)
                 <= length (tracked ghosts))%nat).
  { unfold occupied_sectors, tracked.
    etransitivity; [apply sector_fold_size|]. rewrite size_empty. lia. }
  split; [exact Hsub|]. split; [exact H4|]. split; [exact Htr|].
  intros Hh Hreq.
  destruct (Z.eq_dec (cooldown_after_decrement self) 0) as [E|E].
  - rewrite (_update_converge_rule_detect self pac ghosts Hh E).
    destruct (Z.of_nat (size (occupied_sectors self pac ghosts))
              >=? required_sectors (converge_cfg self)) eqn:G;
      [zbool; lia|reflexivity].
  - now rewrite (_update_converge_rule_cooling self pac ghosts Hh E).
Qed.

End MoreRules.

#[local] Existing Instance Sample.double_arith.

Lemma swaps_rotate_witness :
  roles_of (role_map Sample.controller) ghost_ids = Some ghost_ids
  /\ exists self',
       swaps 4 Sample.controller = Ok self'
       /\ roles_of (role_map self') ghost_ids = Some ghost_ids.
Proof.
  assert (Hr : roles_of (role_map Sample.controller) ghost_ids
               = Some ghost_ids) by reflexivity.
  split; [exact Hr|].
  destruct (swaps_rotate 4 Sample.controller ghost_ids Hr) as (_ & Hfour).
  exact Hfour.
Defined.

Lemma _swap_roles_errors_witness :
  rotation_step (cfg (set_role_map Sample.controller ∅)) mod 4 <> 0
  /\ ~ role_map_total (role_map (set_role_map Sample.controller ∅))
  /\ _swap_roles (set_role_map Sample.controller ∅) = Raise KeyError.
Proof.
  assert (H1 : rotation_step (cfg (set_role_map Sample.controller ∅)) mod 4
               <> 0) by discriminate.
  assert (H2 : ~ role_map_total (role_map (set_role_map Sample.controller ∅))).
  { intros [roles Hr]%role_map_total_roles. discriminate. }
  split; [exact H1|]. split; [exact H2|].
  destruct (_swap_roles_errors (set_role_map Sample.controller ∅))
    as (Hraise & _).
  apply Hraise. repeat split; assumption.
Defined.

Lemma role_map_stays_bijective_witness :
  role_map_bijective (role_map Sample.controller)
  /\ role_map_bijective
       (role_map
          (update (set_escape_ticks Sample.controller 59) Sample.pacman ∅).1).
Proof.
  destruct (role_map_stays_bijective 30 None None) as (Hinit & _ & Hupd & _).
  split; [exact Hinit|].
  apply (Hupd (set_escape_ticks Sample.controller 59) Sample.pacman ∅).
  exact Hinit.
Defined.




(** Right after a rotation the default cooldown is 30: the next 29 ticks
    cannot rotate. *)
Lemma no_rotation_while_cooling_witness :
  Z.of_nat (length (repeat (Sample.pacman, (∅ : gmap string Sprite)) 29))
  < _role_swap_cooldown (set_role_swap_cooldown Sample.controller 30)
  /\ role_map
       (run (set_role_swap_cooldown Sample.controller 30)
          (repeat (Sample.pacman, ∅) 29)).1
     = role_map Sample.controller.
Proof.
  assert (Hlen :
    Z.of_nat (length (repeat (Sample.pacman, (∅ : gmap string Sprite)) 29))
    < _role_swap_cooldown (set_role_swap_cooldown Sample.controller 30))
    by (rewrite repeat_length; cbn; lia).
  split; [exact Hlen|].
  exact (no_rotation_while_cooling _ _ Hlen).
Defined.

Lemma hold_runs_its_course_witness :
  Z.of_nat (length (repeat (Sample.pacman, (∅ : gmap string Sprite)) 30))
  <= _converge_ticks (set_converge_ticks Sample.controller 30)
  /\ Forall (fun r => r = Ok all_converge)
       (run (set_converge_ticks Sample.controller 30)
          (repeat (Sample.pacman, ∅) 30)).2.
Proof.
  assert (Hlen :
    Z.of_nat (length (repeat (Sample.pacman, (∅ : gmap string Sprite)) 30))
    <= _converge_ticks (set_converge_ticks Sample.controller 30))
    by (rewrite repeat_length; cbn; lia).
  split; [exact Hlen|].
  destruct (hold_runs_its_course _ _ Hlen) as (Hall & _). exact Hall.
Defined.

(** Surrounded right after a hold, with the default 30-tick cooldown: no
    override for 29 ticks. *)
Lemma converge_cooldown_quiet_witness :
  _converge_ticks (set_converge_cooldown Sample.controller 30) <= 0
  /\ Z.of_nat
       (length (repeat (Sample.pacman, Sample.surrounding) 29))
     < _converge_cooldown (set_converge_cooldown Sample.controller 30)
  /\ _converge_ticks
       (run (set_converge_cooldown Sample.controller 30)
          (repeat (Sample.pacman, Sample.surrounding) 29)).1 = 0.
Proof.
  assert (Hh : _converge_ticks (set_converge_cooldown Sample.controller 30)
               <= 0) by (cbn; lia).
  assert (Hlen :
    Z.of_nat (length (repeat (Sample.pacman, Sample.surrounding) 29))
    < _converge_cooldown (set_converge_cooldown Sample.controller 30))
    by (rewrite repeat_length; cbn; lia).
  split; [exact Hh|]. split; [exact Hlen|].
  destruct (converge_cooldown_quiet _ _ Hh Hlen) as (Ht & _).
  exact Ht.
Defined.

(** The fresh controller: every identity plays itself. *)
Lemma role_to_ghost_inverts_witness :
  role_map_bijective (role_map Sample.controller)
  /\ role_to_ghost Sample.controller Sample.surrounding !! "pinky"
     = Sample.surrounding !! "pinky".
Proof.
  assert (Hb : role_map_bijective (role_map Sample.controller)).
  { split.
    - intros gid. apply (dict_of_four_keys "blinky" "pinky" "inky" "clyde").
    - exists ghost_ids. split; [reflexivity|].
      apply NoDup_four. repeat split; discriminate. }
  split; [exact Hb|].
  destruct (role_to_ghost_inverts Sample.controller Sample.surrounding Hb)
    as (Hinv & _).
  apply Hinv. reflexivity.
Defined.

(** Two ghosts cannot make up three sectors. *)
Lemma sectors_bounded_witness :
  _converge_ticks Sample.controller <= 0
  /\ Z.of_nat (length (tracked (delete "inky" Sample.surrounding)))
     < required_sectors (converge_cfg Sample.controller)
  /\ (_update_converge_rule Sample.controller
        (Rect.center (rect Sample.pacman))
        (delete "inky" Sample.surrounding)).2 = None.
Proof.
  assert (Hh : _converge_ticks Sample.controller <= 0) by (cbn; lia).
  assert (Hreq :
    Z.of_nat (length (tracked (delete "inky" Sample.surrounding)))
    < required_sectors (converge_cfg Sample.controller))
    by (vm_compute; reflexivity).
  split; [exact Hh|]. split; [exact Hreq|].
  destruct (sectors_bounded Sample.controller
              (Rect.center (rect Sample.pacman))
              (delete "inky" Sample.surrounding)) as (_ & _ & _ & Hnone).
  apply Hnone; [exact Hh|now right].
Defined.

End MetaRulesMore.
